(** * Train induction planner: feasibility, cost model, solver, explanations

    A shallow embedding of [src/constraints.py], [src/cost_model.py],
    [src/solver.py] and [src/explain.py].

    - Python floats are IEEE-754 binary64 values, modelled by [spec_float]
      with [prec = 53] and [emax = 1024]; arithmetic rounds to nearest even.
    - A pandas table is the list of its rows; [df.loc[df["train_id"] == t]]
      is a filter, [.empty] tests for the empty list, [.iloc[0]] takes the
      head.  A column that a row may lack ([row.get(col, default)]) is an
      [option] field.
    - Identifiers ([train_id], [slot_id]) are strings, so that
      [astype(str)] is the identity on them.
    - The cost matrix is a labelled frame: row labels, column labels and a
      finite map from label pairs to cells.
    - Exceptions are values of [result]; the [debug] printing of
      [solve_and_extract] is left out.
    - [scipy.optimize.linear_sum_assignment] is a parameter of the solver;
      [solver.lsa_exhaustive] is an executable stand-in for it. *)

From Stdlib Require Import ZArith QArith String Ascii List Bool Lia Sorted.
From Stdlib Require Import Floats.SpecFloat.
From stdpp Require Import base option list gmap strings pretty.

Local Open Scope string_scope.
Local Open Scope list_scope.

(** ** Binary64 floats *)

Module Float.

Definition float := spec_float.

Definition prec : Z := 53.
Definition emax : Z := 1024.

(** [m * 2^e], rounded to binary64: used for literals and for [float(int)]. *)
Definition of_dyadic (m e : Z) : float := binary_normalize prec emax m e false.
Definition of_Z (z : Z) : float := of_dyadic z 0.

Definition add : float -> float -> float := SFadd prec emax.
Definition sub : float -> float -> float := SFsub prec emax.
Definition mul : float -> float -> float := SFmul prec emax.
(** Python raises [ZeroDivisionError] on a zero divisor; every division of
    the program has a non-zero literal as divisor. *)
Definition div : float -> float -> float := SFdiv prec emax.

Definition eqb : float -> float -> bool := SFeqb.
Definition ltb : float -> float -> bool := SFltb.
Definition leb : float -> float -> bool := SFleb.
(** [a >= b] *)
Definition geb (a b : float) : bool := SFleb b a.

(** [math.isfinite] *)
Definition isfinite (x : float) : bool :=
  match x with
  | S754_zero _ | S754_finite _ _ _ => true
  | S754_infinity _ | S754_nan => false
  end.

(** Python's [max(a, b)]: the first argument unless the second is
    strictly greater. *)
Definition max (a b : float) : float := if ltb a b then b else a.

(** The exact rational value of a finite float (0 for the others). *)
Definition to_Q (x : float) : Q :=
  match x with
  | S754_finite s m e =>
      let v := match e with
               | Z0 => inject_Z (Zpos m)
               | Zpos p => inject_Z (Zpos m * 2 ^ Zpos p)
               | Zneg p => Qmake (Zpos m) (2 ^ p)%positive
               end in
      if s then Qopp v else v
  | _ => 0%Q
  end.

End Float.

Abbreviation float := Float.float.

(** ** Strings: [str.lower] and [str.strip]

    A Python [str] is held as the bytes of its UTF-8 encoding, so that a
    character outside ASCII is a sequence of two to four bytes, the first
    in [0xC2..0xF4] and the others in [0x80..0xBF]. *)

(** [str.lower] on the ASCII letters.  The bytes of a character outside
    ASCII are left as they are: the program only compares a lowered role
    with the ASCII words ["service"], ["standby"] and ["ibl"], and the only
    character outside ASCII that [str.lower] sends to an ASCII letter is
    the Kelvin sign (to [k]), which none of these words contains. *)
Definition lower_ascii (c : ascii) : ascii :=
  let n := nat_of_ascii c in
  if (65 <=? n)%nat && (n <=? 90)%nat then ascii_of_nat (n + 32) else c.

Fixpoint lower (s : string) : string :=
  match s with
  | EmptyString => EmptyString
  | String c s' => String (lower_ascii c) (lower s')
  end.

(** The characters [str.strip()] removes are those of [str.isspace]:
    U+0009..U+000D, U+001C..U+0020, U+0085, U+00A0, U+1680,
    U+2000..U+200A, U+2028, U+2029, U+202F, U+205F and U+3000. *)

(** The one-byte ones: tab, LF, VT, FF, CR, FS, GS, RS, US and space. *)
Definition is_space (c : ascii) : bool :=
  let n := nat_of_ascii c in
  ((9 <=? n)%nat && (n <=? 13)%nat) || ((28 <=? n)%nat && (n <=? 32)%nat).

(** The two-byte ones: U+0085 is [C2 85] and U+00A0 is [C2 A0]. *)
Definition is_space2 (c1 c2 : ascii) : bool :=
  let a := nat_of_ascii c1 in
  let b := nat_of_ascii c2 in
  (a =? 194)%nat && ((b =? 133)%nat || (b =? 160)%nat).

(** The three-byte ones: U+1680 is [E1 9A 80], U+2000..U+200A are
    [E2 80 80] to [E2 80 8A], U+2028, U+2029 and U+202F are [E2 80 A8],
    [E2 80 A9] and [E2 80 AF], U+205F is [E2 81 9F] and U+3000 is
    [E3 80 80]. *)
Definition is_space3 (c1 c2 c3 : ascii) : bool :=
  let a := nat_of_ascii c1 in
  let b := nat_of_ascii c2 in
  let c := nat_of_ascii c3 in
  ((a =? 225)%nat && (b =? 154)%nat && (c =? 128)%nat)
  || ((a =? 226)%nat && (b =? 128)%nat
      && (((128 <=? c)%nat && (c <=? 138)%nat)
          || (c =? 168)%nat || (c =? 169)%nat || (c =? 175)%nat))
  || ((a =? 226)%nat && (b =? 129)%nat && (c =? 159)%nat)
  || ((a =? 227)%nat && (b =? 128)%nat && (c =? 128)%nat).

(** [s] is exactly one whitespace character. *)
Definition is_space_char (s : string) : bool :=
  match s with
  | String c1 EmptyString => is_space c1
  | String c1 (String c2 EmptyString) => is_space2 c1 c2
  | String c1 (String c2 (String c3 EmptyString)) => is_space3 c1 c2 c3
  | _ => false
  end.

Fixpoint lstrip (s : string) : string :=
  match s with
  | EmptyString => EmptyString
  | String c1 s1 =>
      if is_space c1 then lstrip s1
      else
        match s1 with
        | EmptyString => s
        | String c2 s2 =>
            if is_space2 c1 c2 then lstrip s2
            else
              match s2 with
              | EmptyString => s
              | String c3 s3 => if is_space3 c1 c2 c3 then lstrip s3 else s
              end
        end
  end.

(** The tail is stripped first; what is left of it does not end in
    whitespace, so that [c] followed by it ends in whitespace only when
    the whole of it is one whitespace character. *)
Fixpoint rstrip (s : string) : string :=
  match s with
  | EmptyString => EmptyString
  | String c s' =>
      let r := String c (rstrip s') in
      if is_space_char r then EmptyString else r
  end.

Definition strip (s : string) : string := rstrip (lstrip s).

(** ** Tables *)

(** A numeric cell as pandas reads it from a CSV column: an integer, or a
    float (which includes NaN for an empty cell). *)
Inductive cell :=
  | CInt (z : Z)
  | CFloat (f : float).

(** [cell == k] for an integer literal [k]. *)
Definition cell_eq_int (c : cell) (k : Z) : bool :=
  match c with
  | CInt z => (z =? k)%Z
  | CFloat f => Float.eqb f (Float.of_Z k)
  end.

(** [float(cell)] *)
Definition cell_to_float (c : cell) : float :=
  match c with
  | CInt z => Float.of_Z z
  | CFloat f => f
  end.

(** The [shunt_distance] cell: a number, or a value on which [float()]
    raises (non-numeric text). *)
Inductive shunt_cell :=
  | ShuntNum (c : cell)
  | ShuntBad.

Record job_row := {
  job_train_id : string;
  blocked : option cell }.

Record cert_row := {
  cert_train_id : string;
  brake_test_valid : option cell;
  pto_valid : option cell;
  atp_valid : option cell }.

Record clean_row := {
  clean_train_id : string;
  cleaning_done : option cell }.

Record mileage_row := {
  mileage_train_id : string;
  mileage_km : option cell }.

(** A row of the slot table.  [role] is the text of the cell ([str(...)]
    of it); [None] stands for an absent column. *)
Record slot_row := {
  slot_id : string;
  role : option string;
  shunt_distance : option shunt_cell }.

(** The bundle of five tables, [data[...]]. *)
Record data := {
  job_card : list job_row;
  certificate_validity : list cert_row;
  cleaning_roster : list clean_row;
  mileage : list mileage_row;
  induction_slots : list slot_row }.

(** [df.loc[df["train_id"] == train_id]] *)
Definition loc_train {R} (key : R -> string) (df : list R) (train_id : string) : list R :=
  filter (fun r => key r = train_id) df.

(** [row.get(col, dflt) == k] *)
Definition get_eq (c : option cell) (dflt : Z) (k : Z) : bool :=
  cell_eq_int (default (CInt dflt) c) k.

(** [all(cert.get(c, 0) == 1 for c in ["brake_test_valid", "pto_valid", "atp_valid"])] *)
Definition certs_all_valid (c : cert_row) : bool :=
  forallb (fun col => get_eq col 0 1) [brake_test_valid c; pto_valid c; atp_valid c].

(** ** constraints.py *)

Module constraints.

(** [str(slot_row.get("role", "")).strip().lower()] *)
Definition norm_role (s : slot_row) : string :=
  lower (strip (default "" (role s))).

Definition is_pair_feasible (train_id : string) (job_df : list job_row)
    (cert_df : list cert_row) (clean_df : list clean_row) (s : slot_row) : bool :=
  match loc_train job_train_id job_df train_id,
        loc_train cert_train_id cert_df train_id,
        loc_train clean_train_id clean_df train_id with
  | job :: _, cert :: _, clean :: _ =>
      let role := norm_role s in
      if bool_decide (role = "service") && get_eq (blocked job) 0 1 then false
      else if bool_decide (role = "service") then
        if negb (certs_all_valid cert) then false
        else if get_eq (cleaning_done clean) 1 0 then false
        else true
      else true
  | _, _, _ => false
  end.

End constraints.

(** ** cost_model.py *)

Module cost_model.

Record weights := {
  w_readiness : float;
  w_mileage : float;
  w_shunt : float }.

Definition DEFAULT_WEIGHTS : weights :=
  {| w_readiness := Float.of_Z 10;
     w_mileage := Float.of_Z 1;
     w_shunt := Float.of_dyadic 1 (-1) |}.

Definition INF : float := Float.of_Z 1000000.

Definition readiness_risk (train_id : string) (job_df : list job_row)
    (cert_df : list cert_row) (clean_df : list clean_row) : Z :=
  match loc_train job_train_id job_df train_id,
        loc_train cert_train_id cert_df train_id,
        loc_train clean_train_id clean_df train_id with
  | job :: _, cert :: _, clean :: _ =>
      if get_eq (blocked job) 0 1 then 5
      else if negb (certs_all_valid cert) then 4
      else if get_eq (cleaning_done clean) 1 0 then 1
      else 0
  | _, _, _ => 5
  end.

Definition threshold_km : float := Float.of_Z 200000.
Definition scale : float := Float.of_Z 10000.

Definition mileage_penalty (train_id : string) (mileage_df : list mileage_row) : float :=
  match loc_train mileage_train_id mileage_df train_id with
  | [] => Float.of_Z 2
  | row :: _ =>
      let mileage := cell_to_float (default (CInt 0) (mileage_km row)) in
      Float.max (Float.of_Z 0) (Float.div (Float.sub mileage threshold_km) scale)
  end.

(** The fallback table [{"service": 1.0, "standby": 0.5, "ibl": 1.5}],
    default [1.0].  Here the role is lowercased but not stripped. *)
Definition shunt_fallback (s : slot_row) : float :=
  let role := lower (default "" (role s)) in
  if bool_decide (role = "service") then Float.of_Z 1
  else if bool_decide (role = "standby") then Float.of_dyadic 1 (-1)
  else if bool_decide (role = "ibl") then Float.of_dyadic 3 (-1)
  else Float.of_Z 1.

Definition shunt_proxy (s : slot_row) : float :=
  match shunt_distance s with
  | Some (ShuntNum c) => Float.div (cell_to_float c) (Float.of_Z 100)
  | Some ShuntBad => shunt_fallback s
  | None => shunt_fallback s
  end.

(** The weighted sum of [compute_pair_cost], before the finiteness test. *)
Definition weighted_sum (train_id : string) (s : slot_row) (d : data) (w : weights) : float :=
  let r_risk := readiness_risk train_id (job_card d) (certificate_validity d) (cleaning_roster d) in
  let m_pen := mileage_penalty train_id (mileage d) in
  let s_proxy := shunt_proxy s in
  Float.add
    (Float.add (Float.mul (w_readiness w) (Float.of_Z r_risk))
               (Float.mul (w_mileage w) m_pen))
    (Float.mul (w_shunt w) s_proxy).

Definition compute_pair_cost (train_id : string) (s : slot_row) (d : data)
    (wopt : option weights) : float :=
  let w := default DEFAULT_WEIGHTS wopt in
  let feasible :=
    constraints.is_pair_feasible train_id (job_card d) (certificate_validity d)
      (cleaning_roster d) s in
  if negb feasible then INF
  else
    let cost := weighted_sum train_id s d w in
    if negb (Float.isfinite cost) then INF else cost.

(** A weight vector as the spec's data model wants it: finite and
    non-negative. *)
Definition finite_nonneg (x : float) : bool :=
  Float.isfinite x && Float.leb (Float.of_Z 0) x.

Definition weights_finite_nonneg (w : weights) : bool :=
  finite_nonneg (w_readiness w) && finite_nonneg (w_mileage w)
  && finite_nonneg (w_shunt w).

(** Some supplied weight is NaN or an infinity. *)
Definition has_nonfinite_weight (w : weights) : bool :=
  negb (Float.isfinite (w_readiness w)) || negb (Float.isfinite (w_mileage w))
  || negb (Float.isfinite (w_shunt w)).

End cost_model.

(** ** Exceptions *)

Inductive error :=
  | KeyError (what : string)
  | TypeError (what : string)
  | ValueError (what : string)
  | IndexError (what : string).

Inductive result (A : Type) :=
  | Ok (a : A)
  | Err (e : error).
Arguments Ok {A} a.
Arguments Err {A} e.

Global Instance result_ret : MRet result := fun A a => Ok a.

Global Instance result_bind : MBind result := fun A B k m =>
  match m with
  | Ok a => k a
  | Err e => Err e
  end.

(** A loop whose body may raise. *)
Fixpoint foldlM {A B} (f : A -> B -> result A) (a : A) (l : list B) : result A :=
  match l with
  | [] => Ok a
  | b :: l' => a' ← f a b ; foldlM f a' l'
  end.

(** [enumerate(l)] *)
Definition enumerate {A} (l : list A) : list (nat * A) := imap pair l.

(** Order-preserving removal of repeats, keeping the first occurrence:
    [Series.unique()] and [list(dict.fromkeys(l))]. *)
Fixpoint unique_from (seen l : list string) : list string :=
  match l with
  | [] => []
  | x :: l' =>
      if bool_decide (x ∈ seen) then unique_from seen l'
      else x :: unique_from (x :: seen) l'
  end.

Definition unique (l : list string) : list string := unique_from [] l.

(** ** The labelled cost frame ([pd.DataFrame(index=..., columns=..., dtype=float)]) *)

Record frame := {
  index : list string;
  columns : list string;
  cells : gmap (string * string) float }.

(** [matrix.at[r, c] = v], for labels [r] and [c] of the frame. *)
Definition at_set (m : frame) (r c : string) (v : float) : frame :=
  {| index := index m; columns := columns m; cells := <[(r, c) := v]> (cells m) |}.

Definition count_label (x : string) (l : list string) : nat :=
  length (filter (fun y => y = x) l).

(** The cell at labels [r], [c]; NaN if never written. *)
Definition cell_value (m : frame) (r c : string) : float :=
  default S754_nan (cells m !! (r, c)).

(** [float(matrix.at[r, c])]: with a repeated label [.at] falls back to
    [.loc] and yields a Series, on which [float()] raises; a cell never
    written holds NaN. *)
Definition at_get (m : frame) (r c : string) : result float :=
  match count_label r (index m), count_label c (columns m) with
  | 0, _ | _, 0 => Err (KeyError "label")
  | 1, 1 => Ok (cell_value m r c)
  | _, _ => Err (TypeError "cannot convert the series to float")
  end.

Module cost_model_matrix.
Import cost_model.

Definition build_cost_matrix (d : data) (w : option weights) : frame :=
  let job := job_card d in
  let slots := induction_slots d in
  let trains := unique (map job_train_id job) in
  let slot_ids := map slot_id slots in
  let matrix := {| index := trains; columns := slot_ids; cells := ∅ |} in
  foldl (fun matrix s =>
           let sid := slot_id s in
           foldl (fun matrix t => at_set matrix t sid (compute_pair_cost t s d w))
                 matrix trains)
        matrix slots.

(** The two loops of [build_cost_matrix], named: the inner one fills the
    column of one slot row, the outer one runs over the slot rows. *)
Definition fill_column (d : data) (w : option weights) (m : frame) (s : slot_row)
    (trains : list string) : frame :=
  foldl (fun m t => at_set m t (slot_id s) (compute_pair_cost t s d w)) m trains.

Definition fill_all (d : data) (w : option weights) (m : frame)
    (slots : list slot_row) (trains : list string) : frame :=
  foldl (fun m s => fill_column d w m s trains) m slots.

Definition explain_reason (train_id : string) (s : slot_row) (d : data) : string :=
  let r := readiness_risk train_id (job_card d) (certificate_validity d) (cleaning_roster d) in
  let reasons1 :=
    if (5 <=? r)%Z then ["blocked / high readiness risk"]
    else if (4 <=? r)%Z then ["certificate issue"]
    else if (1 <=? r)%Z then ["cleaning pending"]
    else [] in
  let m := mileage_penalty train_id (mileage d) in
  let reasons2 :=
    if Float.geb m (Float.of_Z 3) then ["very high mileage"]
    else if Float.geb m (Float.of_Z 1) then ["high mileage"]
    else [] in
  let s := shunt_proxy s in
  let reasons3 := if Float.geb s (Float.of_Z 4) then ["long shunt movement"] else [] in
  let reasons := reasons1 ++ reasons2 ++ reasons3 in
  match reasons with
  | [] => "good fit"
  | _ => String.concat "; " (take 2 reasons)
  end.

End cost_model_matrix.

(** ** solver.py *)

Module solver.
Import cost_model cost_model_matrix.

(** [square[i, j] = v] on a list of rows. *)
Definition set2 (i j : nat) (v : float) (sq : list (list float)) : list (list float) :=
  alter (fun row => <[j := v]> row) i sq.

(** [square[i, j]] *)
Definition get2 (sq : list (list float)) (i j : nat) : option float :=
  sq !! i ≫= fun row => row !! j.

Definition pad_to_square (matrix_df : frame) (pad_value : float)
    : result (list (list float) * list string * list string) :=
  let rows := index matrix_df in
  let cols := columns matrix_df in
  let n := Nat.max (length rows) (length cols) in
  let square := replicate n (replicate n pad_value) in
  square' ← foldlM (fun sq '(i, r) =>
                foldlM (fun sq '(j, c) =>
                          v ← at_get matrix_df r c;
                          Ok (set2 i j v sq))
                       sq (enumerate cols))
              square (enumerate rows);
  Ok (square', rows, cols).

(** The same two loops as one loop over the pairs of an enumerated row
    label and an enumerated column label. *)
Definition pad_cells (matrix_df : frame) : list ((nat * string) * (nat * string)) :=
  ir ← enumerate (index matrix_df); pair ir <$> enumerate (columns matrix_df).

Definition pad_step (matrix_df : frame) (sq : list (list float))
    (x : (nat * string) * (nat * string)) : result (list (list float)) :=
  v ← at_get matrix_df x.1.2 x.2.2; Ok (set2 x.1.1 x.2.1 v sq).

(** The loop body when [.at] does not raise. *)
Definition pad_write (matrix_df : frame) (sq : list (list float))
    (x : (nat * string) * (nat * string)) : list (list float) :=
  set2 x.1.1 x.2.1 (cell_value matrix_df x.1.2 x.2.2) sq.

(** The square matrix [pad_to_square] returns when no lookup raises. *)
Definition padded (matrix_df : frame) (pad_value : float) : list (list float) :=
  let n := Nat.max (length (index matrix_df)) (length (columns matrix_df)) in
  foldl (pad_write matrix_df) (replicate n (replicate n pad_value)) (pad_cells matrix_df).

(** A matrix of [n] rows of [n] cells. *)
Definition is_square (n : nat) (sq : list (list float)) : Prop :=
  length sq = n ∧ Forall (fun row => length row = n) sq.

(** One row of the returned table. *)
Record assignment := {
  train_id : string;
  assigned_slot : option string;
  slot_role : option string;
  cost : option float;
  explanation : option string }.

Definition unassigned (t : string) (why : string) : assignment :=
  {| train_id := t; assigned_slot := None; slot_role := None; cost := None;
     explanation := Some why |}.

(** The all-NaN row [reindex] makes for a label the frame lacks. *)
Definition missing_row (t : string) : assignment :=
  {| train_id := t; assigned_slot := None; slot_role := None; cost := None;
     explanation := None |}.

(** [pd.DataFrame(assignments).set_index("train_id").reindex(ids).reset_index()]:
    a frame built from no row has no column, so [set_index] raises;
    [reindex] raises on a frame whose index repeats a label. *)
Definition reindex_by_train (assignments : list assignment) (ids : list string)
    : result (list assignment) :=
  match assignments with
  | [] => Err (KeyError "train_id")
  | _ =>
      if bool_decide (NoDup (map train_id assignments)) then
        Ok (map (fun t =>
                   match filter (fun a => train_id a = t) assignments with
                   | a :: _ => a
                   | [] => missing_row t
                   end) ids)
      else Err (ValueError "cannot reindex on an axis with duplicate labels")
  end.

(** [INF / 10.0] *)
Definition INF_tenth : float := Float.div INF (Float.of_Z 10).

(** The three outcomes a decoded row can show: no feasible slot, a dummy
    column, or a real slot of the table with its role, cost and explanation. *)
Definition is_outcome (d : data) (a : assignment) : Prop :=
  (assigned_slot a = None ∧ explanation a = Some "No feasible slot")
  ∨ (assigned_slot a = None
     ∧ explanation a = Some "Assigned to dummy (no available real slot)")
  ∨ (∃ s c, s ∈ induction_slots d ∧ assigned_slot a = Some (slot_id s)
            ∧ slot_role a = role s ∧ cost a = Some c
            ∧ Float.geb c INF_tenth = false
            ∧ explanation a = Some (explain_reason (train_id a) s d)).

Section Solve.

(** [scipy.optimize.linear_sum_assignment], applied to a square matrix of
    finite entries: it returns the pair [(row_ind, col_ind)]. *)
Variable linear_sum_assignment : list (list float) -> list nat * list nat.

(** The body of the decoding loop, for one matched pair [(r, c)]. *)
Definition decode_pair (d : data) (square : list (list float))
    (trains slots : list string) (assignments : list assignment) (rc : nat * nat)
    : result (list assignment) :=
  let '(r, c) := rc in
  let n_trains := length trains in
  let n_slots := length slots in
  if bool_decide (r < n_trains) && bool_decide (c < n_slots) then
    match trains !! r, slots !! c, get2 square r c with
    | Some t, Some sid, Some cost_val =>
        if Float.geb cost_val INF_tenth then
          Ok (assignments ++ [unassigned t "No feasible slot"])
        else
          match filter (fun s => slot_id s = sid) (induction_slots d) with
          | s :: _ =>
              Ok (assignments ++
                  [{| train_id := t; assigned_slot := Some sid; slot_role := role s;
                      cost := Some cost_val;
                      explanation := Some (explain_reason t s d) |}])
          | [] => Err (IndexError "single positional indexer is out-of-bounds")
          end
    | _, _, _ => Err (IndexError "index out of bounds")
    end
  else if bool_decide (r < n_trains) && bool_decide (n_slots <= c) then
    match trains !! r with
    | Some t =>
        Ok (assignments ++ [unassigned t "Assigned to dummy (no available real slot)"])
    | None => Err (IndexError "index out of bounds")
    end
  else Ok assignments.

(** The first half of [solve_and_extract]: cost matrix, padding, matching. *)
Definition solve_matching (d : data) (w : option weights)
    : result (list (list float) * list string * list string * (list nat * list nat)) :=
  let cost_df := build_cost_matrix d w in
  '(square, trains, slots) ← pad_to_square cost_df INF;
  Ok (square, trains, slots, linear_sum_assignment square).

Definition solve_and_extract (d : data) (w : option weights) : result (list assignment) :=
  '(square, trains, slots, (row_ind, col_ind)) ← solve_matching d w;
  assignments ← foldlM (decode_pair d square trains slots) [] (zip row_ind col_ind);
  reindex_by_train assignments (map job_train_id (job_card d)).

End Solve.

(** *** The matching routine

    [scipy.optimize.linear_sum_assignment] is a library routine, not part
    of the sources. *)

(** The exact total cost of assigning row [i] to column [cols[i]]. *)
Definition entry_Q (sq : list (list float)) (i j : nat) : Q :=
  Float.to_Q (default S754_nan (get2 sq i j)).

Definition total_cost (sq : list (list float)) (cols : list nat) : Q :=
  foldr Qplus 0%Q (imap (entry_Q sq) cols).

(** The first element of [best :: l] of least value. *)
Fixpoint argmin {A} (f : A -> Q) (best : A) (l : list A) : A :=
  match l with
  | [] => best
  | x :: l' => argmin f (if Qle_bool (f best) (f x) then best else x) l'
  end.

(** Modelled from the spec: [scipy.optimize.linear_sum_assignment], which
    the sources import but do not contain.  The spec asks for "an exact
    minimum-cost perfect matching (assignment-problem) algorithm over the
    padded square matrix" that finds "a global optimum" with a consistent
    tie-break: the model searches all permutations of the columns and keeps
    the first of least exact total cost; the rows come back sorted. *)
Definition lsa_exhaustive (sq : list (list float)) : list nat * list nat :=
  let ident := seq 0 (length sq) in
  (ident, argmin (total_cost sq) ident (permutations ident)).

End solver.

(** ** explain.py *)

Module explain.

(** [slot_row] is [None] for Python's [None] or an empty Series. *)
Definition get_infeasibility_reasons (train_id : string) (slot : option slot_row)
    (d : data) : list string :=
  let job_row := loc_train job_train_id (job_card d) train_id in
  let cert_row := loc_train cert_train_id (certificate_validity d) train_id in
  let clean_row := loc_train clean_train_id (cleaning_roster d) train_id in
  let r1 := match job_row with [] => ["missing job-card data"] | _ => [] end in
  let r2 := match cert_row with [] => ["missing certificate data"] | _ => [] end in
  let r3 := match clean_row with [] => ["missing cleaning data"] | _ => [] end in
  let r4 :=
    match slot with
    | Some s =>
        let a := match cert_row with
                 | cert :: _ =>
                     if negb (certs_all_valid cert) then ["certificate invalid"] else []
                 | [] => []
                 end in
        let b := match job_row with
                 | job :: _ =>
                     if get_eq (blocked job) 0 1 && bool_decide (role s = Some "Service")
                     then ["blocked train cannot go to Service"] else []
                 | [] => []
                 end in
        let c := match clean_row with
                 | clean :: _ =>
                     if get_eq (cleaning_done clean) 1 0 && bool_decide (role s = Some "Service")
                     then ["cleaning pending for Service"] else []
                 | [] => []
                 end in
        a ++ b ++ c
    | None => []
    end in
  unique (r1 ++ r2 ++ r3 ++ r4).

End explain.

(** Not a negative number: a zero, a positive number, an infinity or NaN. *)
Definition not_negative (x : float) : Prop :=
  match x with
  | S754_finite true _ _ => False
  | _ => True
  end.

(** ** constraints.py: the single-rule helpers and the feasibility map *)

Module constraints_rules.
Import constraints.

(** [row[col] == k]: indexing a column the row lacks raises. *)
Definition getitem_eq (c : option cell) (col : string) (k : Z) : result bool :=
  match c with
  | Some v => Ok (cell_eq_int v k)
  | None => Err (KeyError col)
  end.

(** [all(cert_row[col] == 1 for col in required_cols)]: the columns are
    read in order and [all] stops at the first flag that is not 1. *)
Definition is_cert_valid (c : cert_row) : result bool :=
  b1 ← getitem_eq (brake_test_valid c) "brake_test_valid" 1;
  if negb b1 : bool then Ok false
  else
    b2 ← getitem_eq (pto_valid c) "pto_valid" 1;
    if negb b2 : bool then Ok false
    else getitem_eq (atp_valid c) "atp_valid" 1.

(** [slot_row["role"] == "Service"], read only when the left operand of
    [and] holds. *)
Definition role_is_Service (s : slot_row) : result bool :=
  match role s with
  | Some r => Ok (bool_decide (r = "Service"))
  | None => Err (KeyError "role")
  end.

Definition is_jobcard_allowed (job : job_row) (s : slot_row) : result bool :=
  b ← getitem_eq (blocked job) "blocked" 1;
  if b : bool then sv ← role_is_Service s; Ok (negb sv) else Ok true.

Definition is_cleaning_ok (clean : clean_row) (s : slot_row) : result bool :=
  b ← getitem_eq (cleaning_done clean) "cleaning_done" 0;
  if b : bool then sv ← role_is_Service s; Ok (negb sv) else Ok true.

(** The dict [feasible[(train_id, slot_id)]]. *)
Definition build_feasibility_map (d : data) : gmap (string * string) bool :=
  let job := job_card d in
  let cert := certificate_validity d in
  let clean := cleaning_roster d in
  let slots := induction_slots d in
  foldl (fun feasible s =>
           let sid := slot_id s in
           foldl (fun feasible t =>
                    <[(t, sid) := is_pair_feasible t job cert clean s]> feasible)
                 feasible (unique (map job_train_id job)))
        ∅ slots.

End constraints_rules.

(** ** explain.py: the breakdown reasons and the summary of [explain_all] *)

Module explain_summary.
Import constraints explain.

Definition top_reasons_from_breakdown (readiness : Z) (mileage shunt : float)
    : list string :=
  let r1 :=
    if (4 <=? readiness)%Z then ["high readiness risk"]
    else if (1 <=? readiness)%Z then ["readiness concern"]
    else [] in
  let r2 :=
    if Float.geb mileage (Float.of_Z 3) then ["very high mileage"]
    else if Float.geb mileage (Float.of_Z 1) then ["high mileage"]
    else [] in
  let r3 := if Float.geb shunt (Float.of_Z 4) then ["long shunt"] else [] in
  let reasons := r1 ++ r2 ++ r3 in
  let reasons := match reasons with [] => ["good fit"] | _ => reasons end in
  take 3 reasons.

(** [reason_counts[r] = reason_counts.get(r, 0) + 1] on a dict kept in
    insertion order. *)
Fixpoint dict_incr (r : string) (counts : list (string * nat)) : list (string * nat) :=
  match counts with
  | [] => [(r, 1)]
  | (k, c) :: rest =>
      if bool_decide (k = r) then (k, S c) :: rest else (k, c) :: dict_incr r rest
  end.

(** [reason_counts.get(r, 0)] *)
Fixpoint dict_get (r : string) (counts : list (string * nat)) : nat :=
  match counts with
  | [] => 0
  | (k, c) :: rest => if bool_decide (k = r) then c else dict_get r rest
  end.

(** The loop of [explain_all] over the slot rows, for one unassigned
    train: the reasons of every infeasible slot are counted. *)
Definition reason_counts (train_id : string) (d : data) : list (string * nat) :=
  foldl (fun counts srow =>
           let feasible :=
             is_pair_feasible train_id (job_card d) (certificate_validity d)
               (cleaning_roster d) srow in
           if negb feasible then
             foldl (fun counts r => dict_incr r counts) counts
                   (get_infeasibility_reasons train_id (Some srow) d)
           else counts)
        [] (induction_slots d).

(** What the counting loop keeps true of the dict: distinct keys,
    positive counts. *)
Definition good_counts (counts : list (string * nat)) : Prop :=
  NoDup (map fst counts) ∧ Forall (fun kc => (1 ≤ kc.2)%nat) counts.

(** The slot rows that are infeasible for the train and list reason [r]. *)
Definition slots_with_reason (train_id : string) (d : data) (r : string)
    : list slot_row :=
  filter (fun srow =>
            is_pair_feasible train_id (job_card d) (certificate_validity d)
              (cleaning_roster d) srow = false
            ∧ r ∈ get_infeasibility_reasons train_id (Some srow) d)
         (induction_slots d).

(** [sorted(items, key=lambda x: x[1], reverse=True)]: a stable sort by
    decreasing count. *)
Fixpoint insert_by_count (x : string * nat) (l : list (string * nat))
    : list (string * nat) :=
  match l with
  | [] => [x]
  | y :: l' => if (y.2 <=? x.2)%nat then x :: y :: l' else y :: insert_by_count x l'
  end.

Definition sorted_by_count (l : list (string * nat)) : list (string * nat) :=
  foldr insert_by_count [] l.

Definition sorted_reasons (train_id : string) (d : data) : list (string * nat) :=
  sorted_by_count (reason_counts train_id d).

(** [[f"{r} ({c} slots)" for r, c in sorted_reasons] or ["no feasible slot"]] *)
Definition infeas_reasons (train_id : string) (d : data) : list string :=
  match sorted_reasons train_id d with
  | [] => ["no feasible slot"]
  | l => map (fun rc => rc.1 +:+ " (" +:+ pretty rc.2 +:+ " slots)") l
  end.

End explain_summary.

(** ** ingestion.py: the schema check *)

Module ingestion.

Definition required_columns : list (string * list string) :=
  [("job_card", ["train_id"; "blocked"]);
   ("certificate_validity", ["train_id"; "brake_test_valid"]);
   ("cleaning_roster", ["train_id"; "cleaning_done"]);
   ("mileage", ["train_id"; "mileage_km"]);
   ("induction_slots", ["slot_id"; "role"; "shunt_distance"])].

(** [[col for col in required if col not in df.columns]] *)
Definition missing_columns (required columns : list string) : list string :=
  filter (fun col => col ∉ columns) required.

(** The text of a list of column names, as an f-string prints it. *)
Definition repr_columns (l : list string) : string :=
  "[" +:+ String.concat ", " (map (fun c => "'" +:+ c +:+ "'") l) +:+ "]".

(** The bundle is seen here as the map from a table's name to its column
    names; [data[name]] raises on a table that is absent.  The messages
    printed on the way are left out. *)
Definition validate_basic_schema (tables : gmap string (list string)) : result unit :=
  foldlM (fun _ '(name, required) =>
            match tables !! name with
            | None => Err (KeyError name)
            | Some columns =>
                match missing_columns required columns with
                | [] => Ok tt
                | missing =>
                    Err (ValueError (name +:+ " is missing required columns: "
                                     +:+ repr_columns missing))
                end
            end)
         tt required_columns.

End ingestion.

(** ** What a decoded row says about its matched pair *)

Module solver_rows.
Import cost_model cost_model_matrix solver.

(** Row [a] is what the decoding loop appends for the matched pair
    [(r, c)]. *)
Definition decoded (d : data) (sq : list (list float)) (trains slots : list string)
    (r c : nat) (a : assignment) : Prop :=
  ∃ t, trains !! r = Some t ∧
    ((∃ sid v, slots !! c = Some sid ∧ get2 sq r c = Some v
               ∧ Float.geb v INF_tenth = true
               ∧ a = unassigned t "No feasible slot")
     ∨ (∃ sid v s rest, slots !! c = Some sid ∧ get2 sq r c = Some v
               ∧ Float.geb v INF_tenth = false
               ∧ filter (fun s => slot_id s = sid) (induction_slots d) = s :: rest
               ∧ a = {| train_id := t; assigned_slot := Some sid; slot_role := role s;
                        cost := Some v; explanation := Some (explain_reason t s d) |})
     ∨ ((length slots ≤ c)%nat
        ∧ a = unassigned t "Assigned to dummy (no available real slot)")).

(** What the solver relies on from the matching routine, on the padded
    matrix of the call at hand: sorted rows and a permutation of the
    columns, as [linear_sum_assignment] documents for a square matrix. *)
Definition matching_contract (lsa : list (list float) -> list nat * list nat)
    (d : data) (w : option weights) : Prop :=
  ∀ sq trains slots,
    pad_to_square (build_cost_matrix d w) INF = Ok (sq, trains, slots) →
    (lsa sq).1 = seq 0 (length sq) ∧ (lsa sq).2 ≡ₚ seq 0 (length sq).

(** The row was given a dummy column. *)
Definition is_dummy_row (a : assignment) : Prop :=
  assigned_slot a = None
  ∧ explanation a = Some "Assigned to dummy (no available real slot)".

Global Instance is_dummy_row_dec a : Decision (is_dummy_row a).
Proof. unfold is_dummy_row. apply _. Defined.

End solver_rows.

(** ** app.py: the cost-matrix route *)

Module app.
Import cost_model cost_model_matrix solver.

(** What the route answers: a 400 with its message, the 500 of the
    [except] clause, or the 200 with the JSON object
    [{"trains": ..., "slots": ..., "costs": {train: {slot: cost or null}}}]. *)
Inductive response :=
  | Resp400 (msg : string)
  | Resp500 (e : error)
  | Resp200 (trains slots : list string)
            (costs : gmap string (gmap string (option float))).

(** [cost_val if cost_val < cost_model.INF / 10 else None] *)
Definition shown_cost (cost_val : float) : option float :=
  if Float.ltb cost_val INF_tenth then Some cost_val else None.

(** [original_job_card[original_job_card["train_id"].isin(selected_trains)]] *)
Definition select_trains (loaded : data) (selected_trains : list string) : data :=
  {| job_card := filter (fun j => job_train_id j ∈ selected_trains) (job_card loaded);
     certificate_validity := certificate_validity loaded;
     cleaning_roster := cleaning_roster loaded;
     mileage := mileage loaded;
     induction_slots := induction_slots loaded |}.

(** The route [/api/cost-matrix], as a function of the request's
    [train_ids] and [weights] and of the tables [ingestion.load_all()]
    returns. *)
Definition get_cost_matrix (loaded : data) (selected_trains : list string)
    (weights : option weights) : response :=
  match selected_trains with
  | [] => Resp400 "No trains selected"
  | _ =>
      let d := select_trains loaded selected_trains in
      let cost_df := build_cost_matrix d weights in
      match
        foldlM (fun costs t =>
                  row ← foldlM (fun row sid =>
                                  cost_val ← at_get cost_df t sid;
                                  Ok (<[sid := shown_cost cost_val]> row))
                               (∅ : gmap string (option float)) (columns cost_df);
                  Ok (<[t := row]> costs))
               (∅ : gmap string (gmap string (option float))) (index cost_df)
      with
      | Ok costs => Resp200 (index cost_df) (columns cost_df) costs
      | Err e => Resp500 e
      end
  end.

End app.

(** ** Sample tables *)

Module Samples.
Import cost_model.

Definition mkjob (t : string) (b : Z) : job_row :=
  {| job_train_id := t; blocked := Some (CInt b) |}.
Definition mkcert (t : string) (a b c : Z) : cert_row :=
  {| cert_train_id := t; brake_test_valid := Some (CInt a);
     pto_valid := Some (CInt b); atp_valid := Some (CInt c) |}.
Definition mkclean (t : string) (c : Z) : clean_row :=
  {| clean_train_id := t; cleaning_done := Some (CInt c) |}.
Definition mkmileage (t : string) (km : Z) : mileage_row :=
  {| mileage_train_id := t; mileage_km := Some (CInt km) |}.
Definition mkslot (sid r : string) (dist : Z) : slot_row :=
  {| slot_id := sid; role := Some r; shunt_distance := Some (ShuntNum (CInt dist)) |}.

(** A healthy train [T1] and a blocked train [T2], present in every table. *)
Definition fleet (slots : list slot_row) : data :=
  {| job_card := [mkjob "T1" 0; mkjob "T2" 1];
     certificate_validity := [mkcert "T1" 1 1 1; mkcert "T2" 1 1 1];
     cleaning_roster := [mkclean "T1" 1; mkclean "T2" 1];
     mileage := [mkmileage "T1" 150000; mkmileage "T2" 150000];
     induction_slots := slots |}.

(** [T5] has an invalid certificate; [T6] has no mileage row; [T7] has no
    certificate row; [T8] has run 10 000 200 000 km. *)
Definition depot (slots : list slot_row) : data :=
  {| job_card := [mkjob "T5" 0; mkjob "T6" 0; mkjob "T7" 0; mkjob "T8" 0];
     certificate_validity := [mkcert "T5" 1 0 1; mkcert "T6" 1 1 1; mkcert "T8" 1 1 1];
     cleaning_roster := [mkclean "T5" 1; mkclean "T6" 1; mkclean "T7" 1; mkclean "T8" 1];
     mileage := [mkmileage "T5" 150000; mkmileage "T7" 150000;
                 mkmileage "T8" 10000200000];
     induction_slots := slots |}.

(** No train at all. *)
Definition no_trains (slots : list slot_row) : data :=
  {| job_card := []; certificate_validity := []; cleaning_roster := [];
     mileage := []; induction_slots := slots |}.

Definition service_S1 : slot_row := mkslot "S1" "Service" 50.
Definition lowercase_service_S1 : slot_row := mkslot "S1" "service" 50.
Definition spaced_service_S1 : slot_row := mkslot "S1" " Service" 50.
(** The role "Service" followed by a no-break space, U+00A0, whose UTF-8
    encoding is [C2 A0]. *)
Definition no_break_space : string :=
  String (ascii_of_nat 194) (String (ascii_of_nat 160) EmptyString).
Definition nbsp_service_S1 : slot_row :=
  mkslot "S1" (String.append "Service" no_break_space) 50.
Definition standby_S2 : slot_row := mkslot "S2" "Standby" 0.
Definition ibl_S3 : slot_row := mkslot "S3" "IBL" 120.

Definition negative_weights : weights :=
  {| w_readiness := Float.of_Z (-1); w_mileage := Float.of_Z 1;
     w_shunt := Float.of_dyadic 1 (-1) |}.

Definition nan_weights : weights :=
  {| w_readiness := S754_nan; w_mileage := Float.of_Z 1;
     w_shunt := Float.of_dyadic 1 (-1) |}.

(** [w_readiness = 2^1023]: finite, and five times it overflows. *)
Definition huge_weights : weights :=
  {| w_readiness := Float.of_dyadic 1 1023; w_mileage := Float.of_Z 1;
     w_shunt := Float.of_dyadic 1 (-1) |}.

End Samples.

(** More sample tables: rows that lack optional columns, and a yard with
    more trains than slots. *)
Module MoreSamples.
Import Samples.

(** The columns the schema check does not ask for are absent: no
    [pto_valid], no [atp_valid]. *)
Definition cert_brake_only (t : string) : cert_row :=
  {| cert_train_id := t; brake_test_valid := Some (CInt 1);
     pto_valid := None; atp_valid := None |}.

Definition job_no_blocked (t : string) : job_row :=
  {| job_train_id := t; blocked := None |}.

Definition clean_no_flag (t : string) : clean_row :=
  {| clean_train_id := t; cleaning_done := None |}.

Definition sparse (certs : list cert_row) (slots : list slot_row) : data :=
  {| job_card := [job_no_blocked "T1"];
     certificate_validity := certs;
     cleaning_roster := [clean_no_flag "T1"];
     mileage := [mkmileage "T1" 150000];
     induction_slots := slots |}.

(** Three healthy trains. *)
Definition three_trains (slots : list slot_row) : data :=
  {| job_card := [mkjob "T1" 0; mkjob "T3" 0; mkjob "T4" 0];
     certificate_validity := [mkcert "T1" 1 1 1; mkcert "T3" 1 1 1; mkcert "T4" 1 1 1];
     cleaning_roster := [mkclean "T1" 1; mkclean "T3" 1; mkclean "T4" 1];
     mileage := [mkmileage "T1" 150000; mkmileage "T3" 150000; mkmileage "T4" 250000];
     induction_slots := slots |}.

(** A blocked train with cleaning pending, and a train with an invalid
    certificate, facing two Service slots, a slot whose role is written in
    lowercase, and a Standby slot. *)
Definition troubled_yard : data :=
  {| job_card := [mkjob "T2" 1; mkjob "T5" 0];
     certificate_validity := [mkcert "T2" 1 1 1; mkcert "T5" 0 1 1];
     cleaning_roster := [mkclean "T2" 0; mkclean "T5" 1];
     mileage := [];
     induction_slots := [service_S1; mkslot "S4" "Service" 10;
                         mkslot "S5" "service" 50; standby_S2] |}.

End MoreSamples.

(** ** Feasibility and pair cost *)

Section PairFacts.
Import constraints cost_model.

Lemma is_pair_feasible_missing t job_df cert_df clean_df s :
  loc_train job_train_id job_df t = [] ∨
  loc_train cert_train_id cert_df t = [] ∨
  loc_train clean_train_id clean_df t = [] →
  is_pair_feasible t job_df cert_df clean_df s = false.
Proof.
  unfold is_pair_feasible.
  intros [H | [H | H]]; rewrite H; repeat case_match; reflexivity.
Qed.

Lemma compute_pair_cost_unfold t s d w :
  compute_pair_cost t s d w =
  if is_pair_feasible t (job_card d) (certificate_validity d) (cleaning_roster d) s
  then if Float.isfinite (weighted_sum t s d (default DEFAULT_WEIGHTS w))
       then weighted_sum t s d (default DEFAULT_WEIGHTS w) else INF
  else INF.
Proof.
  unfold compute_pair_cost.
  destruct (is_pair_feasible _ _ _ _ _); simpl; [|reflexivity].
  destruct (Float.isfinite _); reflexivity.
Qed.

Lemma INF_finite : Float.isfinite INF = true.
Proof. reflexivity. Qed.

Lemma compute_pair_cost_isfinite t s d w :
  Float.isfinite (compute_pair_cost t s d w) = true.
Proof.
  rewrite compute_pair_cost_unfold.
  destruct (is_pair_feasible _ _ _ _ _); [|apply INF_finite].
  destruct (Float.isfinite (weighted_sum _ _ _ _)) eqn:E; [exact E | apply INF_finite].
Qed.

(** A non-finite factor or summand makes the result non-finite. *)
Lemma mul_nonfinite_l x y :
  Float.isfinite x = false → Float.isfinite (Float.mul x y) = false.
Proof. destruct x, y; simpl; congruence. Qed.

Lemma add_nonfinite_l x y :
  Float.isfinite x = false → Float.isfinite (Float.add x y) = false.
Proof.
  destruct x as [|[]| |]; destruct y as [|[]| |]; simpl; congruence.
Qed.

Lemma add_nonfinite_r x y :
  Float.isfinite y = false → Float.isfinite (Float.add x y) = false.
Proof.
  destruct x as [|[]| |]; destruct y as [|[]| |]; simpl; congruence.
Qed.

Lemma weighted_sum_nonfinite t s d w :
  has_nonfinite_weight w = true → Float.isfinite (weighted_sum t s d w) = false.
Proof.
  unfold has_nonfinite_weight, weighted_sum.
  rewrite !orb_true_iff, !negb_true_iff. intros [[H | H] | H].
  - apply add_nonfinite_l, add_nonfinite_l, mul_nonfinite_l, H.
  - apply add_nonfinite_l, add_nonfinite_r, mul_nonfinite_l, H.
  - apply add_nonfinite_r, mul_nonfinite_l, H.
Qed.

(** The spec's first scenario: healthy train, Service slot at distance 50,
    default weights: cost 0.25. *)
Example healthy_train_service_cost :
  is_pair_feasible "T1" (job_card (Samples.fleet [Samples.service_S1]))
    (certificate_validity (Samples.fleet [Samples.service_S1]))
    (cleaning_roster (Samples.fleet [Samples.service_S1])) Samples.service_S1 = true
  ∧ readiness_risk "T1" (job_card (Samples.fleet []))
      (certificate_validity (Samples.fleet [])) (cleaning_roster (Samples.fleet [])) = 0%Z
  ∧ shunt_proxy Samples.service_S1 = Float.of_dyadic 1 (-1)
  ∧ compute_pair_cost "T1" Samples.service_S1 (Samples.fleet [Samples.service_S1]) None
    = Float.of_dyadic 1 (-2).
Proof. repeat split. Qed.

(** A train without a mileage row gets the fixed penalty 2.0. *)
Lemma mileage_penalty_missing t mileage_df :
  loc_train mileage_train_id mileage_df t = [] →
  mileage_penalty t mileage_df = Float.of_Z 2.
Proof. unfold mileage_penalty. intros ->. reflexivity. Qed.

End PairFacts.

(** ** Claims on feasibility, pair cost and reasons *)

Section PairClaims.
Import constraints cost_model Samples.

(** C3, as amended.  The pair cost is [INF] exactly when the pair is
    infeasible, or the weighted sum is not finite, or the weighted sum is
    itself [INF]: an infeasible pair never costs anything but [INF], while a
    feasible pair does cost [INF] in the last two cases. *)
Theorem C3_cost_INF_iff t s d w :
  compute_pair_cost t s d w = INF ↔
  is_pair_feasible t (job_card d) (certificate_validity d) (cleaning_roster d) s = false
  ∨ Float.isfinite (weighted_sum t s d (default DEFAULT_WEIGHTS w)) = false
  ∨ weighted_sum t s d (default DEFAULT_WEIGHTS w) = INF.
Proof.
  rewrite compute_pair_cost_unfold.
  destruct (is_pair_feasible _ _ _ _ _); [|tauto].
  destruct (Float.isfinite (weighted_sum _ _ _ _)) eqn:E.
  - split; [tauto|]. intros [? | [? | ?]]; congruence.
  - tauto.
Qed.

(** C3 fails as stated: with the default weights, the feasible pair of
    train [T8] (mileage 10 000 200 000 km) and a Standby slot at distance 0
    costs exactly [INF]. *)
Lemma C3_feasible_pair_costs_INF :
  ¬ (∀ t s d w, weights_finite_nonneg w = true →
       (compute_pair_cost t s d (Some w) = INF ↔
        is_pair_feasible t (job_card d) (certificate_validity d)
                         (cleaning_roster d) s = false)).
Proof.
  intros H.
  destruct (H "T8" standby_S2 (depot [standby_S2]) DEFAULT_WEIGHTS eq_refl) as [H1 _].
  specialize (H1 eq_refl). vm_compute in H1. discriminate H1.
Qed.

(** C4, as amended.  A train with no row in the job-card, certificate or
    cleaning table is infeasible for every slot and costs [INF] there,
    whatever the weights. *)
Theorem C4_missing_record_infeasible t s d w :
  loc_train job_train_id (job_card d) t = [] ∨
  loc_train cert_train_id (certificate_validity d) t = [] ∨
  loc_train clean_train_id (cleaning_roster d) t = [] →
  is_pair_feasible t (job_card d) (certificate_validity d) (cleaning_roster d) s = false
  ∧ compute_pair_cost t s d w = INF.
Proof.
  intros H. apply is_pair_feasible_missing with (s := s) in H.
  split; [exact H|]. rewrite compute_pair_cost_unfold, H. reflexivity.
Qed.

Lemma C4_missing_record_witness :
  is_pair_feasible "T7" (job_card (depot [standby_S2]))
    (certificate_validity (depot [standby_S2]))
    (cleaning_roster (depot [standby_S2])) standby_S2 = false
  ∧ compute_pair_cost "T7" standby_S2 (depot [standby_S2]) None = INF.
Proof.
  apply (C4_missing_record_infeasible "T7" standby_S2 (depot [standby_S2]) None).
  right; left; reflexivity.
Defined.

(** C4 fails as stated for the mileage table: train [T6] has no mileage
    row, yet its pair with a Standby slot is feasible and costs 2.0. *)
Lemma C4_missing_mileage_still_feasible :
  ¬ (∀ t s d w,
       loc_train job_train_id (job_card d) t = [] ∨
       loc_train cert_train_id (certificate_validity d) t = [] ∨
       loc_train clean_train_id (cleaning_roster d) t = [] ∨
       loc_train mileage_train_id (mileage d) t = [] →
       is_pair_feasible t (job_card d) (certificate_validity d)
                        (cleaning_roster d) s = false
       ∧ compute_pair_cost t s d w = INF).
Proof.
  intros H.
  destruct (H "T6" standby_S2 (depot [standby_S2]) None) as [H1 _].
  - right; right; right; reflexivity.
  - vm_compute in H1. discriminate H1.
Qed.

(** C5, as amended.  For a train that has a row in the job-card, certificate
    and cleaning tables, a slot whose role is not "service" after
    stripping and lowercasing is feasible, whatever the rows say. *)
Theorem C5_non_service_feasible t job_df cert_df clean_df s :
  loc_train job_train_id job_df t ≠ [] →
  loc_train cert_train_id cert_df t ≠ [] →
  loc_train clean_train_id clean_df t ≠ [] →
  norm_role s ≠ "service" →
  is_pair_feasible t job_df cert_df clean_df s = true.
Proof.
  intros Hj Hc Hl Hr. unfold is_pair_feasible.
  destruct (loc_train job_train_id job_df t); [done|].
  destruct (loc_train cert_train_id cert_df t); [done|].
  destruct (loc_train clean_train_id clean_df t); [done|].
  rewrite bool_decide_eq_false_2 by exact Hr. reflexivity.
Qed.

Lemma C5_non_service_witness :
  is_pair_feasible "T2" (job_card (fleet [])) (certificate_validity (fleet []))
    (cleaning_roster (fleet [])) standby_S2 = true.
Proof.
  apply C5_non_service_feasible; vm_compute; discriminate.
Defined.

(** C5 fails as stated, where the role is only lowercased, in two ways.
    Train [T7] has no certificate row, and its pair with a Standby slot is
    infeasible.  And the blocked train [T2], present in every table, is
    infeasible for the slot whose role is written " Service": lowercased,
    that role is not "service", but the code strips it first. *)
Lemma C5_missing_row_infeasible :
  ¬ (∀ t job_df cert_df clean_df s,
       lower (default "" (role s)) ≠ "service" →
       is_pair_feasible t job_df cert_df clean_df s = true)
  ∧ (lower (default "" (role standby_S2)) ≠ "service"
     ∧ norm_role standby_S2 ≠ "service"
     ∧ loc_train cert_train_id (certificate_validity (depot [])) "T7" = []
     ∧ is_pair_feasible "T7" (job_card (depot [])) (certificate_validity (depot []))
         (cleaning_roster (depot [])) standby_S2 = false)
  ∧ (lower (default "" (role spaced_service_S1)) ≠ "service"
     ∧ loc_train job_train_id (job_card (fleet [])) "T2" ≠ []
     ∧ loc_train cert_train_id (certificate_validity (fleet [])) "T2" ≠ []
     ∧ loc_train clean_train_id (cleaning_roster (fleet [])) "T2" ≠ []
     ∧ is_pair_feasible "T2" (job_card (fleet [])) (certificate_validity (fleet []))
         (cleaning_roster (fleet [])) spaced_service_S1 = false).
Proof.
  split; [|split].
  - intros H.
    specialize (H "T7" (job_card (depot [])) (certificate_validity (depot []))
                  (cleaning_roster (depot [])) standby_S2).
    vm_compute in H. discriminate H. discriminate.
  - repeat apply conj; vm_compute; first [reflexivity | discriminate].
  - repeat apply conj; vm_compute; first [reflexivity | discriminate].
Qed.

(** The whitespace [str.strip()] removes is not only ASCII: a role
    "Service" followed by a no-break space is "service" once normalised,
    and the blocked train [T2] is infeasible for such a slot. *)
Lemma norm_role_no_break_space :
  norm_role nbsp_service_S1 = "service"
  ∧ is_pair_feasible "T2" (job_card (fleet [])) (certificate_validity (fleet []))
      (cleaning_roster (fleet [])) nbsp_service_S1 = false.
Proof. split; reflexivity. Qed.

(** C9.  [compute_pair_cost] always returns a finite float, and returns
    [INF] whenever the weighted sum is NaN or infinite. *)
Theorem C9_pair_cost_finite t s d w :
  Float.isfinite (compute_pair_cost t s d w) = true
  ∧ (Float.isfinite (weighted_sum t s d (default DEFAULT_WEIGHTS w)) = false →
     compute_pair_cost t s d w = INF).
Proof.
  split; [apply compute_pair_cost_isfinite|].
  intros H. rewrite compute_pair_cost_unfold, H.
  destruct (is_pair_feasible _ _ _ _ _); reflexivity.
Qed.

Lemma C9_overflow_witness :
  weighted_sum "T2" standby_S2 (fleet [standby_S2]) huge_weights = S754_infinity false
  ∧ compute_pair_cost "T2" standby_S2 (fleet [standby_S2]) (Some huge_weights) = INF.
Proof.
  split; [reflexivity|].
  apply (C9_pair_cost_finite "T2" standby_S2 (fleet [standby_S2]) (Some huge_weights)).
  reflexivity.
Defined.

(** C7, as amended.  No weight is rejected; when a supplied weight is NaN
    or infinite, every pair costs [INF]. *)
Theorem C7_nonfinite_weight_costs_INF t s d w :
  has_nonfinite_weight w = true →
  compute_pair_cost t s d (Some w) = INF.
Proof.
  intros H. rewrite compute_pair_cost_unfold. simpl.
  rewrite (weighted_sum_nonfinite t s d w H).
  destruct (is_pair_feasible _ _ _ _ _); reflexivity.
Qed.

Lemma C7_nan_weight_witness :
  compute_pair_cost "T1" standby_S2 (fleet [standby_S2]) (Some nan_weights) = INF.
Proof.
  apply C7_nonfinite_weight_costs_INF. reflexivity.
Defined.

End PairClaims.

(** ** Order-preserving deduplication *)

Lemma elem_of_unique_from x seen l :
  x ∈ unique_from seen l ↔ x ∈ l ∧ x ∉ seen.
Proof.
  revert seen. induction l as [|y l IH]; intros seen; simpl.
  - rewrite elem_of_nil. tauto.
  - case_bool_decide as Hy.
    + rewrite IH, elem_of_cons. split; [tauto|].
      intros [[-> | ?] ?]; tauto.
    + rewrite elem_of_cons, IH, !elem_of_cons. split.
      * intros [-> | [? ?]]; [tauto|]. split; [tauto|]. tauto.
      * intros [[-> | ?] ?]; [tauto|].
        destruct (decide (x = y)); [tauto|]. right. tauto.
Qed.

Lemma elem_of_unique x l : x ∈ unique l ↔ x ∈ l.
Proof.
  unfold unique. rewrite elem_of_unique_from, elem_of_nil. tauto.
Qed.

Lemma NoDup_unique_from seen l : NoDup (unique_from seen l).
Proof.
  revert seen. induction l as [|y l IH]; intros seen; simpl.
  - constructor.
  - case_bool_decide; [apply IH|].
    constructor; [|apply IH].
    rewrite elem_of_unique_from, elem_of_cons. tauto.
Qed.

Lemma NoDup_unique l : NoDup (unique l).
Proof. apply NoDup_unique_from. Qed.

Lemma unique_from_NoDup seen l :
  NoDup l → (∀ x, x ∈ l → x ∉ seen) → unique_from seen l = l.
Proof.
  intros Hnd. revert seen. induction Hnd as [|y l Hy Hnd IH]; intros seen Hs; simpl.
  - reflexivity.
  - rewrite bool_decide_eq_false_2 by (apply Hs; left).
    f_equal. apply IH. intros x Hx. rewrite elem_of_cons.
    intros [-> | ?]; [tauto|]. eapply Hs; [right; exact Hx | assumption].
Qed.

Lemma unique_NoDup l : NoDup l → unique l = l.
Proof.
  intros H. apply unique_from_NoDup; [exact H|].
  intros x _. apply not_elem_of_nil.
Qed.

(** ** Claims on the infeasibility reasons *)

Section ReasonClaims.
Import constraints cost_model Samples explain.

(** With the role spelled exactly "Service", a blocked train does get the
    reason. *)
Lemma blocked_reason_exact_Service t s d job rest :
  loc_train job_train_id (job_card d) t = job :: rest →
  get_eq (blocked job) 0 1 = true →
  role s = Some "Service" →
  "blocked train cannot go to Service" ∈ get_infeasibility_reasons t (Some s) d.
Proof.
  intros Hj Hb Hr. unfold get_infeasibility_reasons.
  rewrite elem_of_unique, Hj, Hb, Hr.
  rewrite bool_decide_eq_true_2 by reflexivity.
  do 3 (apply elem_of_app; right).
  apply elem_of_app; right. apply elem_of_app; left.
  apply list_elem_of_singleton. reflexivity.
Qed.

(** C8 at its failing input: the blocked train [T2], present in every
    table, and a slot whose role is written "service".  The pair is
    infeasible because the role is "service" once normalised, but the list
    of reasons is empty: [get_infeasibility_reasons] compares the role with
    "Service" as written. *)
Theorem C8_lowercase_service_no_reason :
  norm_role lowercase_service_S1 = "service"
  ∧ is_pair_feasible "T2" (job_card (fleet [lowercase_service_S1]))
      (certificate_validity (fleet [lowercase_service_S1]))
      (cleaning_roster (fleet [lowercase_service_S1])) lowercase_service_S1 = false
  ∧ get_infeasibility_reasons "T2" (Some lowercase_service_S1)
      (fleet [lowercase_service_S1]) = [].
Proof. repeat split. Qed.

(** C10.  When the train's certificate row has a flag that is not 1, the
    reasons for any (non-empty) slot row contain "certificate invalid",
    whatever the slot's role; and if the train also has job-card and cleaning
    rows and the role is not "service", the pair is feasible all the same. *)
Theorem C10_certificate_invalid_listed t s d cert rest :
  loc_train cert_train_id (certificate_validity d) t = cert :: rest →
  certs_all_valid cert = false →
  "certificate invalid" ∈ get_infeasibility_reasons t (Some s) d
  ∧ (loc_train job_train_id (job_card d) t ≠ [] →
     loc_train clean_train_id (cleaning_roster d) t ≠ [] →
     norm_role s ≠ "service" →
     is_pair_feasible t (job_card d) (certificate_validity d) (cleaning_roster d) s = true).
Proof.
  intros Hc Hv. split.
  - unfold get_infeasibility_reasons.
    rewrite elem_of_unique, Hc, Hv.
    do 3 (apply elem_of_app; right).
    apply elem_of_app; left. apply list_elem_of_singleton. reflexivity.
  - intros Hj Hl Hr. unfold is_pair_feasible. rewrite Hc.
    destruct (loc_train job_train_id (job_card d) t); [done|].
    destruct (loc_train clean_train_id (cleaning_roster d) t); [done|].
    rewrite bool_decide_eq_false_2 by exact Hr. reflexivity.
Qed.

Lemma C10_standby_witness :
  "certificate invalid" ∈ get_infeasibility_reasons "T5" (Some standby_S2) (depot [standby_S2])
  ∧ is_pair_feasible "T5" (job_card (depot [standby_S2]))
      (certificate_validity (depot [standby_S2]))
      (cleaning_roster (depot [standby_S2])) standby_S2 = true.
Proof.
  destruct (C10_certificate_invalid_listed "T5" standby_S2 (depot [standby_S2])
              (mkcert "T5" 1 0 1) []) as [H1 H2]; [reflexivity | reflexivity |].
  split; [exact H1|]. apply H2; vm_compute; discriminate.
Defined.

End ReasonClaims.

(** ** Loops *)

Lemma foldlM_cons {A B} (f : A → B → result A) a b l :
  foldlM f a (b :: l) = (a' ← f a b; foldlM f a' l).
Proof. reflexivity. Qed.

Lemma foldlM_cons_Ok {A B} (f : A → B → result A) a b l a' :
  foldlM f a (b :: l) = Ok a' → ∃ a1, f a b = Ok a1 ∧ foldlM f a1 l = Ok a'.
Proof.
  rewrite foldlM_cons. destruct (f a b) as [a1|e]; [eauto | discriminate].
Qed.

Lemma foldlM_app {A B} (f : A → B → result A) a l1 l2 :
  foldlM f a (l1 ++ l2) = (a' ← foldlM f a l1; foldlM f a' l2).
Proof.
  revert a. induction l1 as [|b l1 IH]; intros a; simpl; [reflexivity|].
  destruct (f a b) as [a'|e]; simpl; [apply IH | reflexivity].
Qed.

(** Nested loops are one loop over the flattened list. *)
Lemma foldlM_bind {A B C} (f : A → C → result A) (h : B → list C) a l :
  foldlM (fun a b => foldlM f a (h b)) a l = foldlM f a (l ≫= h).
Proof.
  revert a. induction l as [|b l IH]; intros a; simpl; [reflexivity|].
  rewrite foldlM_app.
  destruct (foldlM f a (h b)) as [a'|e]; simpl; [apply IH | reflexivity].
Qed.

(** A loop whose body never raises is a plain fold. *)
Lemma foldlM_ok {A B} (f : A → B → result A) (g : A → B → A) a l :
  (∀ a b, b ∈ l → f a b = Ok (g a b)) →
  foldlM f a l = Ok (foldl g a l).
Proof.
  revert a. induction l as [|b l IH]; intros a H; simpl; [reflexivity|].
  rewrite H by left. simpl. apply IH. intros; apply H; right; assumption.
Qed.

Lemma foldlM_invariant {A B} (P : A → Prop) (f : A → B → result A) a a' l :
  (∀ a b a', P a → f a b = Ok a' → P a') →
  P a → foldlM f a l = Ok a' → P a'.
Proof.
  intros Hstep. revert a. induction l as [|b l IH]; intros a Ha; simpl.
  - intros [= <-]. exact Ha.
  - destruct (f a b) as [a1|e] eqn:E; simpl; [|discriminate].
    apply IH. eapply Hstep; eauto.
Qed.

(** A loop that finishes has run its body without raising on every element. *)
Lemma foldlM_Ok_body {A B} (f : A → B → result A) a a' l b :
  foldlM f a l = Ok a' → b ∈ l → ∃ a0 a1, f a0 b = Ok a1.
Proof.
  revert a. induction l as [|b0 l IH]; intros a H Hb; [inversion Hb|].
  simpl in H. destruct (f a b0) as [a1|e] eqn:E; simpl in H; [|discriminate].
  apply elem_of_cons in Hb as [-> | Hb]; [eauto | eapply IH; eauto].
Qed.

Lemma elem_of_enumerate {A} (l : list A) i x :
  (i, x) ∈ enumerate l ↔ l !! i = Some x.
Proof.
  unfold enumerate. rewrite list_elem_of_lookup. split.
  - intros [k Hk]. rewrite list_lookup_imap in Hk.
    destruct (l !! k) eqn:E; simpl in Hk; [|discriminate].
    injection Hk as <- <-. exact E.
  - intros H. exists i. rewrite list_lookup_imap, H. reflexivity.
Qed.

(** ** Labels *)

Lemma count_label_absent x l : x ∉ l → count_label x l = 0.
Proof.
  unfold count_label. induction l as [|y l IH]; [reflexivity|].
  rewrite not_elem_of_cons. intros [Hne Hx].
  rewrite filter_cons_False by congruence. apply IH, Hx.
Qed.

Lemma count_label_NoDup x l : NoDup l → x ∈ l → count_label x l = 1.
Proof.
  induction 1 as [|y l Hy Hnd IH]; [inversion 1|].
  rewrite elem_of_cons. intros Hx. unfold count_label in *.
  destruct (decide (y = x)) as [->|Hne].
  - rewrite filter_cons_True by reflexivity. simpl. f_equal.
    apply count_label_absent, Hy.
  - rewrite filter_cons_False by exact Hne. apply IH.
    destruct Hx as [->|]; [contradiction | assumption].
Qed.

Lemma count_label_pos x l : x ∈ l → 0 < count_label x l.
Proof.
  unfold count_label. induction l as [|y l IH]; [inversion 1|].
  rewrite elem_of_cons. intros Hx.
  destruct (decide (y = x)) as [->|Hne].
  - rewrite filter_cons_True by reflexivity. simpl. lia.
  - rewrite filter_cons_False by exact Hne. apply IH.
    destruct Hx as [->|]; [contradiction | assumption].
Qed.

Lemma NoDup_count_label l : (∀ x, x ∈ l → count_label x l = 1) → NoDup l.
Proof.
  induction l as [|y l IH]; intros H; [constructor|].
  assert (Hy : y ∉ l).
  { intros Hin. specialize (H y (list_elem_of_here _ _)).
    unfold count_label in H. rewrite filter_cons_True in H by reflexivity.
    apply count_label_pos in Hin. unfold count_label in Hin. simpl in H. lia. }
  constructor; [exact Hy|].
  apply IH. intros x Hx. specialize (H x (list_elem_of_further _ _ _ Hx)).
  unfold count_label in *. rewrite filter_cons_False in H; [exact H|].
  intros ->. contradiction.
Qed.

Lemma at_get_unique m r c :
  count_label r (index m) = 1 → count_label c (columns m) = 1 →
  at_get m r c = Ok (cell_value m r c).
Proof. unfold at_get. intros -> ->. reflexivity. Qed.

Lemma at_get_Ok_inv m r c v :
  at_get m r c = Ok v →
  count_label r (index m) = 1 ∧ count_label c (columns m) = 1 ∧ v = cell_value m r c.
Proof.
  unfold at_get.
  destruct (count_label r (index m)) as [|[|?]];
    destruct (count_label c (columns m)) as [|[|?]]; try discriminate.
  intros [= <-]. auto.
Qed.

(** ** The cost matrix *)

Section CostMatrix.
Import cost_model cost_model_matrix.

Variables (d : data) (w : option weights).

Lemma fill_column_labels m s trains :
  index (fill_column d w m s trains) = index m
  ∧ columns (fill_column d w m s trains) = columns m.
Proof.
  revert m. induction trains as [|t trains IH]; intros m; [done|].
  simpl. destruct (IH (at_set m t (slot_id s) (compute_pair_cost t s d w))) as [-> ->].
  done.
Qed.

Lemma fill_column_cells m s trains t c :
  cells (fill_column d w m s trains) !! (t, c) =
  if bool_decide (c = slot_id s ∧ t ∈ trains)
  then Some (compute_pair_cost t s d w) else cells m !! (t, c).
Proof.
  revert m. induction trains as [|t0 trains IH]; intros m.
  - simpl. rewrite bool_decide_eq_false_2; [done|].
    intros [_ H]. inversion H.
  - unfold fill_column in *. simpl. rewrite IH. simpl.
    destruct (decide (c = slot_id s ∧ t ∈ trains)) as [H|H].
    + rewrite !bool_decide_eq_true_2; [done| |done]. split; [tauto|right; tauto].
    + rewrite (bool_decide_eq_false_2 _ H).
      destruct (decide ((t0, slot_id s) = (t, c))) as [[= -> ->]|Hne].
      * rewrite lookup_insert_eq. rewrite bool_decide_eq_true_2; [done|].
        split; [done|left].
      * rewrite lookup_insert_ne by exact Hne.
        rewrite bool_decide_eq_false_2; [done|].
        rewrite elem_of_cons. intros [-> [-> | ?]]; [congruence | tauto].
Qed.

Lemma fill_all_labels m slots trains :
  index (fill_all d w m slots trains) = index m
  ∧ columns (fill_all d w m slots trains) = columns m.
Proof.
  revert m. induction slots as [|s slots IH]; intros m; [done|].
  simpl. destruct (IH (fill_column d w m s trains)) as [-> ->].
  apply fill_column_labels.
Qed.

Lemma fill_all_other m slots trains t c :
  c ∉ map slot_id slots →
  cells (fill_all d w m slots trains) !! (t, c) = cells m !! (t, c).
Proof.
  revert m. induction slots as [|s slots IH]; intros m Hc; [done|].
  simpl in Hc. apply not_elem_of_cons in Hc as [Hne Hc].
  change (fill_all d w m (s :: slots) trains) with (fill_all d w (fill_column d w m s trains) slots trains).
  rewrite IH by exact Hc. rewrite fill_column_cells.
  rewrite bool_decide_eq_false_2; [done | tauto].
Qed.

Lemma fill_all_cells m slots trains t j s :
  NoDup (map slot_id slots) → slots !! j = Some s → t ∈ trains →
  cells (fill_all d w m slots trains) !! (t, slot_id s) = Some (compute_pair_cost t s d w).
Proof.
  revert m j. induction slots as [|s0 slots IH]; intros m j Hnd Hj Ht; [done|].
  simpl in Hnd. apply NoDup_cons in Hnd as [Hs0 Hnd].
  change (fill_all d w m (s0 :: slots) trains) with (fill_all d w (fill_column d w m s0 trains) slots trains).
  destruct j as [|j]; simpl in Hj.
  - injection Hj as ->.
    rewrite fill_all_other by exact Hs0.
    rewrite fill_column_cells, bool_decide_eq_true_2; done.
  - eapply IH; eauto.
Qed.

Lemma build_cost_matrix_fill :
  build_cost_matrix d w =
  fill_all d w {| index := unique (map job_train_id (job_card d));
              columns := map slot_id (induction_slots d); cells := ∅ |}
           (induction_slots d) (unique (map job_train_id (job_card d))).
Proof. reflexivity. Qed.

Lemma build_cost_matrix_index :
  index (build_cost_matrix d w) = unique (map job_train_id (job_card d)).
Proof. rewrite build_cost_matrix_fill. apply fill_all_labels. Qed.

Lemma build_cost_matrix_columns :
  columns (build_cost_matrix d w) = map slot_id (induction_slots d).
Proof. rewrite build_cost_matrix_fill. apply fill_all_labels. Qed.

(** Every cell of the matrix is the pair cost of its train and slot. *)
Lemma build_cost_matrix_cell t j s :
  NoDup (map slot_id (induction_slots d)) →
  induction_slots d !! j = Some s →
  t ∈ unique (map job_train_id (job_card d)) →
  cell_value (build_cost_matrix d w) t (slot_id s) = compute_pair_cost t s d w.
Proof.
  intros Hnd Hj Ht. unfold cell_value. rewrite build_cost_matrix_fill.
  erewrite fill_all_cells; eauto.
Qed.

End CostMatrix.

(** ** Padding to a square matrix *)

Section Padding.
Import solver.

Lemma foldlM_ext {A B} (f g : A → B → result A) a l :
  (∀ a b, f a b = g a b) → foldlM f a l = foldlM g a l.
Proof.
  intros H. revert a. induction l as [|b l IH]; intros a; simpl; [done|].
  rewrite H. destruct (g a b); simpl; [apply IH | done].
Qed.

Lemma foldlM_fmap {A B C} (f : A → C → result A) (h : B → C) a l :
  foldlM f a (h <$> l) = foldlM (fun a b => f a (h b)) a l.
Proof.
  revert a. induction l as [|b l IH]; intros a; simpl; [done|].
  destruct (f a (h b)); simpl; [apply IH | done].
Qed.

Lemma pad_to_square_flat m pad :
  pad_to_square m pad =
  (sq ← foldlM (pad_step m)
         (replicate (length (index m) `max` length (columns m))
            (replicate (length (index m) `max` length (columns m)) pad))
         (pad_cells m);
   Ok (sq, index m, columns m)).
Proof.
  unfold pad_to_square, pad_cells. f_equal.
  rewrite <- foldlM_bind. apply foldlM_ext. intros sq [i r].
  rewrite foldlM_fmap. apply foldlM_ext. intros sq' [j c]. reflexivity.
Qed.

Lemma is_square_replicate n (pad : float) : is_square n (replicate n (replicate n pad)).
Proof.
  split; [apply length_replicate|].
  apply Forall_replicate, length_replicate.
Qed.

Lemma is_square_set2 n i j v sq : is_square n sq → is_square n (set2 i j v sq).
Proof.
  unfold is_square, set2. intros [Hl Hr]. split.
  - rewrite length_alter. exact Hl.
  - apply Forall_alter; [exact Hr|]. intros row _ Hrow.
    rewrite length_insert. exact Hrow.
Qed.

Lemma is_square_get2 n sq i j :
  is_square n sq → i < n → j < n → is_Some (get2 sq i j).
Proof.
  intros [Hl Hr] Hi Hj. unfold get2.
  destruct (lookup_lt_is_Some_2 sq i) as [row Hrow]; [lia|].
  rewrite Hrow. simpl. apply lookup_lt_is_Some_2.
  rewrite Forall_forall in Hr. rewrite (Hr row); [exact Hj|].
  eapply list_elem_of_lookup_2, Hrow.
Qed.

Lemma get2_set2_eq sq i j v :
  is_Some (get2 sq i j) → get2 (set2 i j v sq) i j = Some v.
Proof.
  unfold get2, set2. intros [x Hx].
  destruct (sq !! i) as [row|] eqn:Hrow; [|discriminate]. simpl in Hx.
  rewrite list_lookup_alter_eq, Hrow. simpl.
  apply list_lookup_insert_eq. eapply lookup_lt_Some, Hx.
Qed.

Lemma get2_set2_ne sq i j v i' j' :
  (i, j) ≠ (i', j') → get2 (set2 i j v sq) i' j' = get2 sq i' j'.
Proof.
  unfold get2, set2. intros Hne.
  destruct (decide (i = i')) as [<-|Hi].
  - rewrite list_lookup_alter_eq. destruct (sq !! i) as [row|]; [|done]. simpl.
    apply list_lookup_insert_ne. congruence.
  - rewrite list_lookup_alter_ne by exact Hi. done.
Qed.

(** After a run of in-bounds writes that all agree with a table [F], a cell
    holds [F] if it was written and its old content otherwise. *)
Lemma get2_foldl_pad_write m (F : nat → nat → float) l sq i j :
  (∀ x, x ∈ l → cell_value m x.1.2 x.2.2 = F x.1.1 x.2.1) →
  (∀ x, x ∈ l → is_Some (get2 sq x.1.1 x.2.1)) →
  get2 (foldl (pad_write m) sq l) i j =
  if bool_decide ((i, j) ∈ (fun x => (x.1.1, x.2.1)) <$> l)
  then Some (F i j) else get2 sq i j.
Proof.
  revert sq. induction l as [|x l IH]; intros sq HF Hin.
  - reflexivity.
  - rewrite fmap_cons. cbn [foldl]. rewrite IH.
    + unfold pad_write.
      destruct (decide ((i, j) ∈ (fun x => (x.1.1, x.2.1)) <$> l)) as [H|H].
      * rewrite !bool_decide_eq_true_2; [done| right; exact H | exact H].
      * rewrite (bool_decide_eq_false_2 _ H).
        destruct (decide ((x.1.1, x.2.1) = (i, j))) as [[= <- <-]|Hne].
        -- rewrite bool_decide_eq_true_2 by left.
           rewrite get2_set2_eq by (apply Hin; left).
           f_equal. apply HF. left.
        -- rewrite get2_set2_ne by exact Hne.
           rewrite bool_decide_eq_false_2; [done|].
           rewrite elem_of_cons. intros [? | ?]; [congruence | contradiction].
    + intros y Hy. apply HF. right. exact Hy.
    + intros y Hy. unfold pad_write.
      destruct (decide ((x.1.1, x.2.1) = (y.1.1, y.2.1))) as [E|Hne].
      * injection E as <- <-. rewrite get2_set2_eq; [eauto|]. apply Hin. left.
      * rewrite get2_set2_ne by exact Hne. apply Hin. right. exact Hy.
Qed.

Lemma elem_of_pad_cells m i r j c :
  ((i, r), (j, c)) ∈ pad_cells m ↔ index m !! i = Some r ∧ columns m !! j = Some c.
Proof.
  unfold pad_cells. rewrite list_elem_of_bind. split.
  - intros [[i' r'] [H1 H2]]. apply list_elem_of_fmap in H1 as [[j' c'] [[= -> -> -> ->] H1]].
    apply elem_of_enumerate in H1, H2. done.
  - intros [H1 H2]. exists (i, r). split.
    + apply list_elem_of_fmap. exists (j, c). split; [done|].
      apply elem_of_enumerate. exact H2.
    + apply elem_of_enumerate. exact H1.
Qed.

Lemma pad_cells_positions m i j :
  (i, j) ∈ (fun x : (nat * string) * (nat * string) => (x.1.1, x.2.1)) <$> pad_cells m
  ↔ i < length (index m) ∧ j < length (columns m).
Proof.
  rewrite list_elem_of_fmap. split.
  - intros [[[i' r] [j' c]] [[= -> ->] H]]. simpl.
    apply elem_of_pad_cells in H as [H1 H2].
    split; eapply lookup_lt_Some; eauto.
  - intros [Hi Hj].
    destruct (lookup_lt_is_Some_2 _ _ Hi) as [r Hr].
    destruct (lookup_lt_is_Some_2 _ _ Hj) as [c Hc].
    exists ((i, r), (j, c)). split; [done|]. apply elem_of_pad_cells. done.
Qed.

Lemma pad_step_write m sq x v :
  at_get m x.1.2 x.2.2 = Ok v → pad_step m sq x = Ok (pad_write m sq x).
Proof.
  intros H. unfold pad_step, pad_write. rewrite H. simpl.
  apply at_get_Ok_inv in H as (_ & _ & ->). reflexivity.
Qed.

Lemma pad_step_Ok_inv m sq x sq' :
  pad_step m sq x = Ok sq' → ∃ v, at_get m x.1.2 x.2.2 = Ok v.
Proof.
  unfold pad_step. destruct (at_get m x.1.2 x.2.2) as [v|e]; [eauto | discriminate].
Qed.

(** With unique labels no lookup raises. *)
Lemma pad_to_square_NoDup m pad :
  NoDup (index m) → NoDup (columns m) →
  pad_to_square m pad = Ok (padded m pad, index m, columns m).
Proof.
  intros Hi Hc. rewrite pad_to_square_flat.
  rewrite (foldlM_ok _ (pad_write m)); [reflexivity|].
  intros sq [[i r] [j c]] Hx. apply elem_of_pad_cells in Hx as [Hr Hcc].
  apply pad_step_write with (v := cell_value m r c). simpl.
  apply at_get_unique; apply count_label_NoDup; try assumption;
    eapply list_elem_of_lookup_2; eauto.
Qed.

(** If [pad_to_square] returns, it returns the labels and [padded]; and
    unless there is no row, the column labels are unique. *)
Lemma pad_to_square_Ok_inv m pad sq rows cols :
  pad_to_square m pad = Ok (sq, rows, cols) →
  rows = index m ∧ cols = columns m ∧ sq = padded m pad
  ∧ (index m ≠ [] → NoDup (columns m)).
Proof.
  rewrite pad_to_square_flat. intros H.
  destruct (foldlM (pad_step m) _ (pad_cells m)) as [sq0|e] eqn:E; [|discriminate].
  simpl in H. injection H as <- <- <-.
  assert (Hbody : ∀ x, x ∈ pad_cells m → ∃ v, at_get m x.1.2 x.2.2 = Ok v).
  { intros x Hx. destruct (foldlM_Ok_body _ _ _ _ _ E Hx) as (a0 & a1 & Ha).
    eapply pad_step_Ok_inv, Ha. }
  repeat split.
  - rewrite (foldlM_ok _ (pad_write m)) in E.
    + injection E as <-. reflexivity.
    + intros a x Hx. destruct (Hbody x Hx) as [v Hv].
      eapply pad_step_write, Hv.
  - intros Hne. apply NoDup_count_label. intros c Hc.
    apply list_elem_of_lookup in Hc as [j Hj].
    destruct (index m) as [|r rest] eqn:Hidx; [done|].
    destruct (Hbody ((0, r), (j, c))) as [v Hv].
    { apply elem_of_pad_cells. rewrite Hidx. done. }
    apply at_get_Ok_inv in Hv. tauto.
Qed.

Lemma padded_square m pad :
  is_square (length (index m) `max` length (columns m)) (padded m pad).
Proof.
  unfold padded. generalize (pad_cells m) as l.
  generalize (is_square_replicate (length (index m) `max` length (columns m)) pad).
  generalize (replicate (length (index m) `max` length (columns m))
                (replicate (length (index m) `max` length (columns m)) pad)) as sq.
  intros sq Hsq l. revert sq Hsq.
  induction l as [|x l IH]; intros sq Hsq; [exact Hsq|].
  simpl. apply IH. apply is_square_set2, Hsq.
Qed.

Lemma get2_replicate n (pad : float) i j :
  i < n → j < n → get2 (replicate n (replicate n pad)) i j = Some pad.
Proof.
  intros Hi Hj. unfold get2.
  rewrite lookup_replicate_2 by exact Hi. simpl.
  apply lookup_replicate_2, Hj.
Qed.

(** The cells of the padded matrix: the frame's cell inside the real
    block, the padding value outside. *)
Lemma padded_real m pad i j r c :
  index m !! i = Some r → columns m !! j = Some c →
  get2 (padded m pad) i j = Some (cell_value m r c).
Proof.
  intros Hr Hc. unfold padded.
  rewrite (get2_foldl_pad_write m
             (fun i j => match index m !! i, columns m !! j with
                         | Some r, Some c => cell_value m r c
                         | _, _ => S754_nan
                         end)).
  - rewrite bool_decide_eq_true_2, Hr, Hc; [done|].
    apply pad_cells_positions. split; eapply lookup_lt_Some; eauto.
  - intros [[i' r'] [j' c']] Hx. apply elem_of_pad_cells in Hx as [H1 H2].
    simpl. rewrite H1, H2. done.
  - intros [[i' r'] [j' c']] Hx. apply elem_of_pad_cells in Hx as [H1 H2].
    simpl. rewrite get2_replicate; [eauto| |].
    + apply lookup_lt_Some in H1. lia.
    + apply lookup_lt_Some in H2. lia.
Qed.

Lemma padded_padding m pad i j :
  i < length (index m) `max` length (columns m) →
  j < length (index m) `max` length (columns m) →
  ¬ (i < length (index m) ∧ j < length (columns m)) →
  get2 (padded m pad) i j = Some pad.
Proof.
  intros Hi Hj Hout. unfold padded.
  rewrite (get2_foldl_pad_write m
             (fun i j => match index m !! i, columns m !! j with
                         | Some r, Some c => cell_value m r c
                         | _, _ => S754_nan
                         end)).
  - rewrite bool_decide_eq_false_2; [apply get2_replicate; assumption|].
    rewrite pad_cells_positions. exact Hout.
  - intros [[i' r'] [j' c']] Hx. apply elem_of_pad_cells in Hx as [H1 H2].
    simpl. rewrite H1, H2. done.
  - intros [[i' r'] [j' c']] Hx. apply elem_of_pad_cells in Hx as [H1 H2].
    simpl. rewrite get2_replicate; [eauto| |].
    + apply lookup_lt_Some in H1. lia.
    + apply lookup_lt_Some in H2. lia.
Qed.

End Padding.

(** ** Decoding the matching *)

Section Decoding.
Import cost_model cost_model_matrix solver.

Variables (d : data) (sq : list (list float)) (trains slots : list string).

(** What one turn of the decoding loop does, when it does not raise: a row
    of a real train appends that train's outcome, a dummy row appends
    nothing. *)
Lemma decode_pair_inv acc r c acc' :
  decode_pair d sq trains slots acc (r, c) = Ok acc' →
  (∃ t a, trains !! r = Some t ∧ acc' = acc ++ [a] ∧ train_id a = t ∧ is_outcome d a)
  ∨ ((length trains ≤ r)%nat ∧ acc' = acc).
Proof.
  unfold decode_pair.
  destruct (decide (r < length trains)%nat) as [Hr|Hr].
  - rewrite !(bool_decide_eq_true_2 _ Hr). simpl.
    destruct (lookup_lt_is_Some_2 _ _ Hr) as [t Ht]. rewrite Ht.
    intros H. left. exists t.
    destruct (bool_decide (c < length slots)%nat) eqn:Hc.
    + destruct (slots !! c) as [sid|]; [|discriminate].
      destruct (get2 sq r c) as [cost_val|]; [|discriminate].
      destruct (Float.geb cost_val INF_tenth) eqn:Hge.
      * injection H as <-. eexists. repeat split. left. done.
      * destruct (filter _ (induction_slots d)) as [|s rest] eqn:Hf; [discriminate|].
        injection H as <-. eexists. repeat split.
        right; right. exists s, cost_val. simpl.
        assert (Hs : s ∈ filter (fun s => slot_id s = sid) (induction_slots d))
          by (rewrite Hf; left).
        apply list_elem_of_filter in Hs as [<- Hs]. done.
    + destruct (bool_decide (length slots ≤ c)%nat) eqn:Hc'.
      * injection H as <-. eexists. repeat split. right; left. done.
      * apply bool_decide_eq_false in Hc, Hc'. lia.
  - rewrite !(bool_decide_eq_false_2 _ Hr). simpl.
    intros [= <-]. right. split; [lia | done].
Qed.

(** On a square matrix that covers the real block, with column labels
    taken from the slot table, a turn of the loop does not raise. *)
Lemma decode_pair_total n acc r c :
  is_square n sq → (length trains ≤ n)%nat → (length slots ≤ n)%nat →
  slots = map slot_id (induction_slots d) →
  ∃ acc', decode_pair d sq trains slots acc (r, c) = Ok acc'.
Proof.
  intros Hsq HT HS Hslots. unfold decode_pair.
  destruct (decide (r < length trains)%nat) as [Hr|Hr].
  - rewrite !(bool_decide_eq_true_2 _ Hr). simpl.
    destruct (lookup_lt_is_Some_2 _ _ Hr) as [t Ht]. rewrite Ht.
    destruct (decide (c < length slots)%nat) as [Hc|Hc].
    + rewrite (bool_decide_eq_true_2 _ Hc).
      destruct (lookup_lt_is_Some_2 _ _ Hc) as [sid Hsid]. rewrite Hsid.
      destruct (is_square_get2 n sq r c Hsq) as [v Hv]; [lia | lia |]. rewrite Hv.
      destruct (Float.geb v INF_tenth); [eauto|].
      destruct (filter _ (induction_slots d)) as [|s rest] eqn:Hf; [|eauto].
      exfalso. apply list_elem_of_lookup_2 in Hsid. rewrite Hslots in Hsid.
      apply list_elem_of_fmap in Hsid as [s [-> Hs]].
      eapply (filter_nil_not_elem_of _ _ s); [exact Hf | reflexivity | exact Hs].
    + rewrite (bool_decide_eq_false_2 _ Hc).
      rewrite bool_decide_eq_true_2 by lia. eauto.
  - rewrite !(bool_decide_eq_false_2 _ Hr). simpl. eauto.
Qed.

(** The loop over [zip(row_ind, col_ind)] when the rows are
    [off, off+1, ..., off+k-1]: the trains [off ..] get their outcomes, in
    order. *)
Lemma decode_loop_inv k : ∀ off cols acc acc',
  length cols = k →
  foldlM (decode_pair d sq trains slots) acc (zip (seq off k) cols) = Ok acc' →
  ∃ new, acc' = acc ++ new
         ∧ map train_id new = take k (drop off trains)
         ∧ Forall (is_outcome d) new.
Proof.
  induction k as [|k IH]; intros off cols acc acc' Hlen H.
  - destruct cols; [|discriminate]. simpl in H. injection H as <-.
    exists []. rewrite app_nil_r. done.
  - destruct cols as [|c cols]; [discriminate|].
    change (zip (seq off (S k)) (c :: cols))
      with ((off, c) :: zip (seq (S off) k) cols) in H.
    apply foldlM_cons_Ok in H as (acc1 & E & H).
    apply IH in H as (new & -> & Hids & Hout); [|simpl in Hlen; lia].
    apply decode_pair_inv in E as [(t & a & Ht & -> & Ha & Hoa) | [Hge ->]].
    + exists (a :: new). rewrite <- app_assoc. split; [done|]. split.
      * rewrite (drop_S _ _ _ Ht). simpl. rewrite Ha, Hids. done.
      * constructor; assumption.
    + exists new. split; [done|]. split; [|done].
      rewrite Hids. rewrite !drop_ge by lia. rewrite !take_nil. done.
Qed.

Lemma decode_loop_total n k : ∀ off cols acc,
  is_square n sq → (length trains ≤ n)%nat → (length slots ≤ n)%nat →
  slots = map slot_id (induction_slots d) →
  ∃ acc', foldlM (decode_pair d sq trains slots) acc (zip (seq off k) cols) = Ok acc'.
Proof.
  induction k as [|k IH]; intros off cols acc Hsq HT HS Hslots.
  - simpl. eauto.
  - destruct cols as [|c cols]; [simpl; eauto|].
    change (zip (seq off (S k)) (c :: cols))
      with ((off, c) :: zip (seq (S off) k) cols).
    destruct (decode_pair_total n acc off c Hsq HT HS Hslots) as [acc1 E].
    rewrite foldlM_cons, E. apply IH; assumption.
Qed.

End Decoding.

(** ** Restoring the job-card order *)

Section Reindex.
Import solver.

Lemma reindex_by_train_inv assignments ids df :
  reindex_by_train assignments ids = Ok df →
  (∀ t, t ∈ ids → t ∈ map train_id assignments) →
  map train_id df = ids ∧ Forall (fun a => a ∈ assignments) df.
Proof.
  unfold reindex_by_train. destruct assignments as [|a0 rest] eqn:Has; [discriminate|].
  rewrite <- Has. clear Has a0 rest.
  destruct (bool_decide (NoDup (map train_id assignments))); [|discriminate].
  intros [= <-] Hcover. induction ids as [|t ids IH]; [done|].
  simpl. destruct IH as [IH1 IH2].
  { intros t' Ht'. apply Hcover. right. exact Ht'. }
  destruct (filter (fun a => train_id a = t) assignments) as [|a rest] eqn:Hf.
  - exfalso. specialize (Hcover t (list_elem_of_here _ _)).
    apply list_elem_of_fmap in Hcover as [a [Ha Hin]].
    eapply (filter_nil_not_elem_of _ _ a); [exact Hf | symmetry; exact Ha | exact Hin].
  - assert (Ha : a ∈ filter (fun a => train_id a = t) assignments) by (rewrite Hf; left).
    apply list_elem_of_filter in Ha as [Ha Hin].
    split; [f_equal; assumption | constructor; assumption].
Qed.

Lemma reindex_by_train_total assignments ids :
  assignments ≠ [] → NoDup (map train_id assignments) →
  ∃ df, reindex_by_train assignments ids = Ok df.
Proof.
  intros Hne Hnd. unfold reindex_by_train.
  destruct assignments; [done|].
  rewrite bool_decide_eq_true_2 by exact Hnd. eauto.
Qed.

End Reindex.

(** ** [solve_and_extract] *)

Section SolveFacts.
Import cost_model cost_model_matrix solver.

Variable lsa : list (list float) → list nat * list nat.
Variables (d : data) (w : option weights).

Lemma unique_nil_inv l : unique l = [] → l = [].
Proof. destruct l; [done | discriminate]. Qed.

Lemma solve_matching_Ok_inv sq trains slots rc :
  solve_matching lsa d w = Ok (sq, trains, slots, rc) →
  trains = unique (map job_train_id (job_card d))
  ∧ slots = map slot_id (induction_slots d)
  ∧ sq = padded (build_cost_matrix d w) INF
  ∧ rc = lsa sq
  ∧ (job_card d ≠ [] → NoDup (map slot_id (induction_slots d))).
Proof.
  unfold solve_matching.
  destruct (pad_to_square (build_cost_matrix d w) INF) as [[[sq0 tr0] sl0]|e] eqn:E;
    simpl; [|discriminate].
  intros [= <- <- <- <-].
  apply pad_to_square_Ok_inv in E as (-> & -> & -> & Hnd).
  rewrite build_cost_matrix_index, build_cost_matrix_columns in *.
  repeat split; try reflexivity.
  intros Hne. apply Hnd. intros H%unique_nil_inv.
  apply Hne. destruct (job_card d); [done | discriminate].
Qed.

Lemma solve_matching_total :
  NoDup (map slot_id (induction_slots d)) →
  solve_matching lsa d w =
  Ok (padded (build_cost_matrix d w) INF,
      unique (map job_train_id (job_card d)),
      map slot_id (induction_slots d),
      lsa (padded (build_cost_matrix d w) INF)).
Proof.
  intros Hnd. unfold solve_matching.
  rewrite pad_to_square_NoDup.
  - simpl. rewrite build_cost_matrix_index, build_cost_matrix_columns. reflexivity.
  - rewrite build_cost_matrix_index. apply NoDup_unique.
  - rewrite build_cost_matrix_columns. exact Hnd.
Qed.

Lemma padded_length :
  length (padded (build_cost_matrix d w) INF) =
  length (unique (map job_train_id (job_card d)))
  `max` length (map slot_id (induction_slots d)).
Proof.
  destruct (padded_square (build_cost_matrix d w) INF) as [H _].
  rewrite H, build_cost_matrix_index, build_cost_matrix_columns. reflexivity.
Qed.

(** When the matching routine returns sorted rows and as many columns, a
    table that is returned has the job-card's train ids, in order, and every
    row of it is a decoded outcome. *)
Lemma solve_and_extract_inv df :
  (lsa (padded (build_cost_matrix d w) INF)).1
    = seq 0 (length (padded (build_cost_matrix d w) INF)) →
  length (lsa (padded (build_cost_matrix d w) INF)).2
    = length (padded (build_cost_matrix d w) INF) →
  solve_and_extract lsa d w = Ok df →
  map train_id df = map job_train_id (job_card d) ∧ Forall (is_outcome d) df.
Proof.
  intros Hrows Hcols. unfold solve_and_extract.
  destruct (solve_matching lsa d w) as [[[[sq trains] slots] [ri ci]]|e] eqn:E;
    simpl; [|discriminate].
  apply solve_matching_Ok_inv in E as (-> & -> & -> & Hrc & _).
  rewrite <- Hrc in Hrows, Hcols. simpl in Hrows, Hcols. subst ri.
  destruct (foldlM _ [] _) as [assignments|e] eqn:E2; simpl; [|discriminate].
  intros Hre.
  apply decode_loop_inv in E2 as (new & -> & Hids & Hout); [|exact Hcols].
  simpl in Hre. rewrite drop_0, take_ge in Hids by (rewrite padded_length; lia).
  apply reindex_by_train_inv in Hre as [H1 H2].
  - split; [exact H1|].
    rewrite Forall_forall in *. intros a Ha. apply Hout, H2, Ha.
  - intros t Ht. rewrite Hids. apply elem_of_unique, Ht.
Qed.

Lemma solve_and_extract_total :
  (lsa (padded (build_cost_matrix d w) INF)).1
    = seq 0 (length (padded (build_cost_matrix d w) INF)) →
  length (lsa (padded (build_cost_matrix d w) INF)).2
    = length (padded (build_cost_matrix d w) INF) →
  job_card d ≠ [] → NoDup (map slot_id (induction_slots d)) →
  ∃ df, solve_and_extract lsa d w = Ok df.
Proof.
  intros Hrows Hcols Hne Hnd. unfold solve_and_extract.
  rewrite (solve_matching_total Hnd). simpl.
  destruct (lsa (padded (build_cost_matrix d w) INF)) as [ri ci] eqn:Hrc.
  simpl in Hrows, Hcols. subst ri.
  destruct (decode_loop_total d (padded (build_cost_matrix d w) INF)
              (unique (map job_train_id (job_card d)))
              (map slot_id (induction_slots d))
              (length (unique (map job_train_id (job_card d)))
               `max` length (map slot_id (induction_slots d)))
              (length (padded (build_cost_matrix d w) INF)) 0 ci [])
    as [assignments E2].
  - rewrite <- (build_cost_matrix_index d w), <- (build_cost_matrix_columns d w).
    apply padded_square.
  - lia.
  - lia.
  - reflexivity.
  - rewrite E2. simpl.
    apply decode_loop_inv in E2 as (new & -> & Hids & Hout); [|exact Hcols].
    simpl. rewrite drop_0, take_ge in Hids by (rewrite padded_length; lia).
    apply reindex_by_train_total.
    + intros ->. simpl in Hids. symmetry in Hids. apply unique_nil_inv in Hids.
      destruct (job_card d); [done | discriminate].
    + rewrite Hids. apply NoDup_unique.
Qed.

(** Without any train the loop appends nothing and [set_index] raises. *)
Lemma solve_and_extract_no_train :
  job_card d = [] →
  solve_matching lsa d w =
    Ok (replicate (length (induction_slots d))
          (replicate (length (induction_slots d)) INF),
        [], map slot_id (induction_slots d),
        lsa (replicate (length (induction_slots d))
               (replicate (length (induction_slots d)) INF)))
  ∧ solve_and_extract lsa d w = Err (KeyError "train_id").
Proof.
  intros Hj.
  assert (Hm : solve_matching lsa d w =
    Ok (replicate (length (induction_slots d))
          (replicate (length (induction_slots d)) INF),
        [], map slot_id (induction_slots d),
        lsa (replicate (length (induction_slots d))
               (replicate (length (induction_slots d)) INF)))).
  { unfold solve_matching. rewrite pad_to_square_flat.
    unfold pad_cells.
    rewrite build_cost_matrix_index, build_cost_matrix_columns, Hj. simpl.
    rewrite length_map. reflexivity. }
  split; [exact Hm|].
  unfold solve_and_extract. rewrite Hm. simpl.
  destruct (lsa _) as [ri ci].
  rewrite (foldlM_ok _ (fun acc _ => acc)).
  - assert (Hfold : ∀ (l : list (nat * nat)) (acc : list assignment),
              foldl (fun acc _ => acc) acc l = acc)
      by (induction l; intros; simpl; auto).
    rewrite Hfold. reflexivity.
  - intros acc [r c] _. unfold decode_pair.
    change (length (@nil string)) with 0.
    rewrite !(bool_decide_eq_false_2 (r < 0)%nat) by lia. reflexivity.
Qed.

End SolveFacts.

(** The spec's scenarios for the solver, with the exhaustive matching: a
    blocked train facing only a Service slot, and two healthy trains
    competing for one Service slot. *)
Example blocked_train_only_service :
  solver.solve_and_extract solver.lsa_exhaustive
    {| job_card := [Samples.mkjob "T2" 1];
       certificate_validity := [Samples.mkcert "T2" 1 1 1];
       cleaning_roster := [Samples.mkclean "T2" 1];
       mileage := [Samples.mkmileage "T2" 150000];
       induction_slots := [Samples.service_S1] |} None
  = Ok [solver.unassigned "T2" "No feasible slot"].
Proof. reflexivity. Qed.

Example two_trains_one_slot :
  solver.solve_and_extract solver.lsa_exhaustive
    {| job_card := [Samples.mkjob "T4" 0; Samples.mkjob "T3" 0];
       certificate_validity := [Samples.mkcert "T3" 1 1 1; Samples.mkcert "T4" 1 1 1];
       cleaning_roster := [Samples.mkclean "T3" 1; Samples.mkclean "T4" 1];
       mileage := [Samples.mkmileage "T3" 150000; Samples.mkmileage "T4" 250000];
       induction_slots := [Samples.service_S1] |} None
  = Ok [solver.unassigned "T4" "Assigned to dummy (no available real slot)";
        {| solver.train_id := "T3"; solver.assigned_slot := Some "S1";
           solver.slot_role := Some "Service";
           solver.cost := Some (Float.of_dyadic 1 (-2));
           solver.explanation := Some "good fit" |}].
Proof. vm_compute. reflexivity. Qed.

(** ** The exhaustive matching is a minimum-cost perfect matching *)

Section Matching.
Import cost_model cost_model_matrix solver.

Lemma argmin_in {A} (f : A → Q) b l : argmin f b l ∈ b :: l.
Proof.
  revert b. induction l as [|x l IH]; intros b; simpl; [left|].
  specialize (IH (if Qle_bool (f b) (f x) then b else x)).
  apply elem_of_cons in IH as [-> | IH].
  - destruct (Qle_bool (f b) (f x)); [left | right; left].
  - right; right; exact IH.
Qed.

Lemma argmin_le {A} (f : A → Q) b l y :
  y ∈ b :: l → (f (argmin f b l) <= f y)%Q.
Proof.
  revert b y. induction l as [|x l IH]; intros b y Hy; simpl.
  - apply list_elem_of_singleton in Hy as ->. apply Qle_refl.
  - set (b' := if Qle_bool (f b) (f x) then b else x).
    assert (Hb : (f b' <= f b)%Q ∧ (f b' <= f x)%Q).
    { subst b'. destruct (Qle_bool (f b) (f x)) eqn:E.
      - apply Qle_bool_iff in E. split; [apply Qle_refl | exact E].
      - split; [|apply Qle_refl].
        apply Qlt_le_weak, Qnot_le_lt. intros H%Qle_bool_iff. congruence. }
    assert (H0 : (f (argmin f b' l) <= f b')%Q) by (apply IH; left).
    rewrite !elem_of_cons in Hy. destruct Hy as [-> | [-> | Hy]].
    + eapply Qle_trans; [exact H0 | tauto].
    + eapply Qle_trans; [exact H0 | tauto].
    + apply IH. right. exact Hy.
Qed.

Lemma lsa_exhaustive_rows sq : (lsa_exhaustive sq).1 = seq 0 (length sq).
Proof. reflexivity. Qed.

Lemma lsa_exhaustive_perm sq : (lsa_exhaustive sq).2 ≡ₚ seq 0 (length sq).
Proof.
  unfold lsa_exhaustive. simpl.
  pose proof (argmin_in (total_cost sq) (seq 0 (length sq))
                (permutations (seq 0 (length sq)))) as H.
  apply elem_of_cons in H as [-> | H]; [reflexivity|].
  apply permutations_Permutation in H. symmetry. exact H.
Qed.

Lemma lsa_exhaustive_min sq cols :
  cols ≡ₚ seq 0 (length sq) →
  (total_cost sq (lsa_exhaustive sq).2 <= total_cost sq cols)%Q.
Proof.
  intros H. unfold lsa_exhaustive. simpl.
  apply argmin_le. right. apply permutations_Permutation. symmetry. exact H.
Qed.

(** Sums of exact costs. *)
Lemma Qsum_app (l1 l2 : list Q) :
  (foldr Qplus 0 (l1 ++ l2) == foldr Qplus 0 l1 + foldr Qplus 0 l2)%Q.
Proof.
  induction l1 as [|q l1 IH]; simpl.
  - rewrite Qplus_0_l. reflexivity.
  - rewrite IH. apply Qplus_assoc.
Qed.

Lemma Qsum_const (l : list Q) (c : Q) :
  Forall (fun q => (q == c)%Q) l →
  (foldr Qplus 0 l == inject_Z (Z.of_nat (length l)) * c)%Q.
Proof.
  induction 1 as [|q l Hq Hl IH].
  - simpl. rewrite Qmult_0_l. reflexivity.
  - cbn [foldr length]. rewrite IH, Hq, Nat2Z.inj_succ, <- Z.add_1_r, inject_Z_plus.
    ring.
Qed.

Lemma total_cost_app sq l1 l2 :
  (total_cost sq (l1 ++ l2) ==
   total_cost sq l1
   + foldr Qplus 0 (imap (fun k => entry_Q sq (length l1 + k)) l2))%Q.
Proof. unfold total_cost. rewrite imap_app. apply Qsum_app. Qed.

(** The dummy rows of a matching cost [INF] each, whatever their columns. *)
Lemma dummy_rows_cost m pad (T : nat) (l : list nat) :
  T = length (index m) →
  (T + length l ≤ length (index m) `max` length (columns m))%nat →
  Forall (fun j => (j < length (index m) `max` length (columns m))%nat) l →
  (foldr Qplus 0 (imap (fun k => entry_Q (padded m pad) (T + k)) l)
   == inject_Z (Z.of_nat (length l)) * Float.to_Q pad)%Q.
Proof.
  intros HT Hlen Hl.
  rewrite Qsum_const with (c := Float.to_Q pad).
  - rewrite length_imap. reflexivity.
  - apply Forall_forall. intros q Hq.
    apply list_elem_of_lookup in Hq as [k Hk].
    rewrite list_lookup_imap in Hk.
    destruct (l !! k) as [j|] eqn:Hj; [|discriminate]. injection Hk as <-.
    unfold entry_Q. rewrite padded_padding; [reflexivity| | |].
    + apply lookup_lt_Some in Hj. lia.
    + rewrite Forall_forall in Hl. apply Hl. eapply list_elem_of_lookup_2, Hj.
    + lia.
Qed.

(** An injective choice of columns for the first rows extends to a
    permutation of all columns. *)
Lemma extend_to_permutation (n : nat) (f : list nat) :
  NoDup f → Forall (fun j => (j < n)%nat) f →
  f ++ filter (fun j => j ∉ f) (seq 0 n) ≡ₚ seq 0 n.
Proof.
  intros Hnd Hlt. apply NoDup_Permutation.
  - apply NoDup_app. split; [exact Hnd|]. split.
    + intros x Hx Hx'. apply list_elem_of_filter in Hx' as [Hx' _]. contradiction.
    + apply NoDup_filter, NoDup_seq.
  - apply NoDup_seq.
  - intros x. rewrite elem_of_app, list_elem_of_filter, elem_of_seq.
    rewrite Forall_forall in Hlt. split.
    + intros [Hx | [_ Hx]]; [specialize (Hlt x Hx) | ]; lia.
    + intros Hx. destruct (decide (x ∈ f)); [left | right]; tauto.
Qed.

End Matching.

(** ** Claims on the solver *)

Section SolverClaims.
Import cost_model cost_model_matrix solver Samples.

(** The matching behind a solve, with the exhaustive exact search
    [lsa_exhaustive] as matching routine: the matrix is the padded square
    one (pair costs in the real block, [INF] elsewhere), the chosen columns
    are a permutation, no permutation of the columns has a lower exact total
    cost, and no one-to-one choice of columns for the trains alone has a
    lower exact total over the trains. *)
Lemma solve_matching_minimal d w :
  job_card d ≠ [] → induction_slots d ≠ [] →
  (NoDup (map slot_id (induction_slots d)) →
   ∃ r, solve_matching lsa_exhaustive d w = Ok r)
  ∧ ∀ sq trains slots rows cols,
      solve_matching lsa_exhaustive d w = Ok (sq, trains, slots, (rows, cols)) →
      let n := length trains `max` length slots in
      is_square n sq
      ∧ (∀ i j t s, trains !! i = Some t → induction_slots d !! j = Some s →
           get2 sq i j = Some (compute_pair_cost t s d w))
      ∧ (∀ i j, (i < n)%nat → (j < n)%nat →
           ¬ ((i < length trains)%nat ∧ (j < length slots)%nat) →
           get2 sq i j = Some INF)
      ∧ rows = seq 0 n
      ∧ cols ≡ₚ seq 0 n
      ∧ (∀ other, other ≡ₚ seq 0 n →
           (total_cost sq cols <= total_cost sq other)%Q)
      ∧ (∀ f, length f = length trains → NoDup f →
           Forall (fun j => (j < n)%nat) f →
           (total_cost sq (take (length trains) cols) <= total_cost sq f)%Q).
Proof.
  intros Hjob Hslot. split.
  { intros Hnd. eexists. apply solve_matching_total, Hnd. }
  intros sq trains slots rows cols H n.
  apply solve_matching_Ok_inv in H as (Htr & Hsl & Hsq & Hrc & Hnd).
  specialize (Hnd Hjob).
  pose proof (padded_square (build_cost_matrix d w) INF) as Hsquare.
  rewrite build_cost_matrix_index, build_cost_matrix_columns, <- Htr, <- Hsl, <- Hsq
    in Hsquare. fold n in Hsquare.
  assert (Hlen : length sq = n) by apply Hsquare.
  assert (Hrows : rows = seq 0 n).
  { rewrite <- Hlen. change rows with (rows, cols).1. rewrite Hrc. reflexivity. }
  assert (Hperm : cols ≡ₚ seq 0 n).
  { rewrite <- Hlen. change cols with (rows, cols).2. rewrite Hrc.
    apply lsa_exhaustive_perm. }
  assert (Hmin : ∀ other, other ≡ₚ seq 0 n →
            (total_cost sq cols <= total_cost sq other)%Q).
  { intros other Ho. change cols with (rows, cols).2. rewrite Hrc.
    apply lsa_exhaustive_min. rewrite Hlen. exact Ho. }
  assert (Hpad : ∀ i j, (i < n)%nat → (j < n)%nat →
            ¬ ((i < length trains)%nat ∧ (j < length slots)%nat) →
            get2 sq i j = Some INF).
  { intros i j Hi Hj Hout. rewrite Hsq. apply padded_padding;
      rewrite build_cost_matrix_index, build_cost_matrix_columns, <- Htr, <- Hsl;
      assumption. }
  split; [exact Hsquare|]. split; [|split; [exact Hpad|]].
  { intros i j t s Hi Hj. rewrite Hsq.
    rewrite (padded_real _ _ i j t (slot_id s)).
    - f_equal. apply (build_cost_matrix_cell d w t j s Hnd Hj).
      rewrite <- Htr. eapply list_elem_of_lookup_2, Hi.
    - rewrite build_cost_matrix_index, <- Htr. exact Hi.
    - rewrite build_cost_matrix_columns, list_lookup_fmap, Hj. reflexivity. }
  split; [exact Hrows|]. split; [exact Hperm|]. split; [exact Hmin|].
  intros f Hf Hnf Hlt.
  assert (Hcl : length cols = n).
  { rewrite (Permutation_length Hperm). apply length_seq. }
  assert (HT : (length trains ≤ n)%nat) by (subst n; lia).
  set (rest := filter (fun j => j ∉ f) (seq 0 n)).
  pose proof (extend_to_permutation n f Hnf Hlt) as Hext. fold rest in Hext.
  assert (Hrl : (length trains + length rest = n)%nat).
  { rewrite <- Hf, <- length_app, (Permutation_length Hext). apply length_seq. }
  assert (Htail : ∀ l, (length trains + length l = n)%nat →
            Forall (fun j => (j < n)%nat) l →
            (foldr Qplus 0 (imap (fun k => entry_Q sq (length trains + k)) l)
             == inject_Z (Z.of_nat (n - length trains)) * Float.to_Q INF)%Q).
  { intros l Hl Hall. rewrite Hsq.
    rewrite (dummy_rows_cost (build_cost_matrix d w) INF (length trains) l).
    - replace (length l) with (n - length trains)%nat by lia. reflexivity.
    - rewrite build_cost_matrix_index, <- Htr. reflexivity.
    - rewrite build_cost_matrix_index, build_cost_matrix_columns, <- Htr, <- Hsl.
      fold n. lia.
    - rewrite build_cost_matrix_index, build_cost_matrix_columns, <- Htr, <- Hsl.
      exact Hall. }
  assert (Hin : ∀ l, l ⊆ seq 0 n → Forall (fun j => (j < n)%nat) l).
  { intros l Hl. apply Forall_forall. intros j Hj%Hl. apply elem_of_seq in Hj. lia. }
  specialize (Hmin _ Hext).
  rewrite <- (take_drop (length trains) cols) in Hmin at 1.
  rewrite !total_cost_app in Hmin.
  rewrite length_take, Hcl, Nat.min_l, Hf in Hmin by exact HT.
  rewrite (Htail (drop (length trains) cols)) in Hmin.
  - rewrite (Htail rest) in Hmin.
    + apply Qplus_le_l in Hmin. exact Hmin.
    + exact Hrl.
    + apply Hin. intros j Hj. apply list_elem_of_filter in Hj. tauto.
  - rewrite length_drop. lia.
  - apply Hin. intros j Hj. rewrite <- Hperm.
    eapply subseteq_drop, Hj.
Qed.

(** C2.  When the job card lists every train once and the matching routine
    returns sorted rows and a permutation of the columns on the padded
    matrix (as it does on a square matrix): a returned table has exactly the
    job card's train ids, in the job card's order and without repeats, and
    each of its rows is a decoded outcome (real slot, dummy column, or no
    feasible slot); and the table is returned whenever there is a train and
    the slot ids are unique. *)
Theorem C2_one_row_per_train lsa d w :
  NoDup (map job_train_id (job_card d)) →
  (∀ sq trains slots,
     pad_to_square (build_cost_matrix d w) INF = Ok (sq, trains, slots) →
     (lsa sq).1 = seq 0 (length sq) ∧ (lsa sq).2 ≡ₚ seq 0 (length sq)) →
  (∀ df, solve_and_extract lsa d w = Ok df →
     map train_id df = map job_train_id (job_card d)
     ∧ NoDup (map train_id df)
     ∧ Forall (is_outcome d) df)
  ∧ (job_card d ≠ [] → NoDup (map slot_id (induction_slots d)) →
     ∃ df, solve_and_extract lsa d w = Ok df).
Proof.
  intros Hnd Hlsa.
  assert (Hpadded : ∀ sq trains slots,
            pad_to_square (build_cost_matrix d w) INF = Ok (sq, trains, slots) →
            (lsa (padded (build_cost_matrix d w) INF)).1
              = seq 0 (length (padded (build_cost_matrix d w) INF))
            ∧ length (lsa (padded (build_cost_matrix d w) INF)).2
              = length (padded (build_cost_matrix d w) INF)).
  { intros sq trains slots E. destruct (Hlsa _ _ _ E) as [Hrows Hperm].
    apply pad_to_square_Ok_inv in E as (_ & _ & -> & _).
    split; [exact Hrows|]. rewrite (Permutation_length Hperm). apply length_seq. }
  split.
  - intros df H.
    destruct (pad_to_square (build_cost_matrix d w) INF) as [[[sq tr] sl]|e] eqn:E.
    + destruct (Hpadded _ _ _ eq_refl) as [Hrows Hcols].
      apply solve_and_extract_inv in H as [H1 H2]; try assumption.
      split; [exact H1|]. split; [|exact H2]. rewrite H1. exact Hnd.
    + unfold solve_and_extract, solve_matching in H. rewrite E in H. discriminate H.
  - intros Hne Hslots.
    destruct (Hpadded _ _ _ (pad_to_square_NoDup (build_cost_matrix d w) INF
                (eq_ind_r NoDup (NoDup_unique _) (build_cost_matrix_index d w))
                (eq_ind_r NoDup Hslots (build_cost_matrix_columns d w))))
      as [Hrows Hcols].
    apply solve_and_extract_total; assumption.
Qed.

Lemma C2_fleet_witness :
  ∃ df, solve_and_extract lsa_exhaustive (fleet [service_S1]) None = Ok df
        ∧ map train_id df = ["T1"; "T2"]
        ∧ Forall (is_outcome (fleet [service_S1])) df.
Proof.
  destruct (C2_one_row_per_train lsa_exhaustive (fleet [service_S1]) None)
    as [Hinv Htot].
  - vm_compute. apply NoDup_ListNoDup. repeat constructor; simpl; intuition discriminate.
  - intros sq trains slots _. split; [apply lsa_exhaustive_rows | apply lsa_exhaustive_perm].
  - destruct Htot as [df Hdf]; [discriminate | apply NoDup_singleton |].
    exists df. split; [exact Hdf|].
    destruct (Hinv df Hdf) as (H1 & _ & H3). split; [exact H1 | exact H3].
Defined.

(** C6 at its failing input: no train, one slot.  The matrix is padded to
    1x1, the matching routine runs on it, and the call then fails with the
    [KeyError] of [set_index("train_id")]; no emptiness test is made. *)
Theorem C6_no_train_KeyError :
  solve_matching lsa_exhaustive (no_trains [service_S1]) None
    = Ok ([[INF]], [], ["S1"], ([0], [0]))
  ∧ solve_and_extract lsa_exhaustive (no_trains [service_S1]) None
    = Err (KeyError "train_id").
Proof. split; reflexivity. Qed.

(** C7 fails as stated: with [w_readiness = -1.0] the blocked train [T2]
    costs -5.0 at the Standby slot, and the solve returns its table with the
    costs computed from that weight (-5.0 + 0.5 * 1.2 for [T2] at the IBL
    slot). *)
Lemma C7_negative_weight_accepted :
  compute_pair_cost "T2" standby_S2 (fleet [standby_S2; ibl_S3]) (Some negative_weights)
    = Float.of_Z (-5)
  ∧ solve_and_extract lsa_exhaustive (fleet [standby_S2; ibl_S3]) (Some negative_weights)
    = Ok [ {| train_id := "T1"; assigned_slot := Some "S2"; slot_role := Some "Standby";
              cost := Some (S754_zero false); explanation := Some "good fit" |};
           {| train_id := "T2"; assigned_slot := Some "S3"; slot_role := Some "IBL";
              cost := Some (Float.add (Float.of_Z (-5))
                              (Float.mul (Float.of_dyadic 1 (-1))
                                 (Float.div (Float.of_Z 120) (Float.of_Z 100))));
              explanation := Some "blocked / high readiness risk" |} ].
Proof. split; vm_compute; reflexivity. Qed.

End SolverClaims.

(** * Further properties of the code *)

(** ** Readiness, feasibility and the column defaults *)

Section ReadinessFacts.
Import constraints cost_model constraints_rules Samples MoreSamples.

Lemma ltb_leb x y : Float.ltb x y = true → Float.leb x y = true.
Proof.
  unfold Float.ltb, Float.leb, SFltb, SFleb.
  destruct (SFcompare x y) as [[]|]; congruence.
Qed.

Lemma ready_train_feasible t d s :
  readiness_risk t (job_card d) (certificate_validity d) (cleaning_roster d) = 0%Z →
  is_pair_feasible t (job_card d) (certificate_validity d) (cleaning_roster d) s = true.
Proof.
  unfold readiness_risk, is_pair_feasible.
  destruct (loc_train job_train_id (job_card d) t) as [|job ?]; [discriminate|].
  destruct (loc_train cert_train_id (certificate_validity d) t) as [|cert ?];
    [discriminate|].
  destruct (loc_train clean_train_id (cleaning_roster d) t) as [|clean ?];
    [discriminate|].
  destruct (get_eq (blocked job) 0 1); [discriminate|].
  destruct (certs_all_valid cert); [|discriminate]. simpl.
  destruct (get_eq (cleaning_done clean) 1 0); [discriminate|].
  intros _. rewrite andb_false_r. destruct (bool_decide _); reflexivity.
Qed.

(** X1.  A train whose readiness risk is 0 is feasible for every slot,
    whatever the slot's role. *)
Theorem X1_ready_train_feasible_everywhere t d s :
  readiness_risk t (job_card d) (certificate_validity d) (cleaning_roster d) = 0%Z →
  is_pair_feasible t (job_card d) (certificate_validity d) (cleaning_roster d) s = true.
Proof.
  unfold readiness_risk, is_pair_feasible.
  destruct (loc_train job_train_id (job_card d) t) as [|job ?]; [discriminate|].
  destruct (loc_train cert_train_id (certificate_validity d) t) as [|cert ?];
    [discriminate|].
  destruct (loc_train clean_train_id (cleaning_roster d) t) as [|clean ?];
    [discriminate|].
  destruct (get_eq (blocked job) 0 1); [discriminate|].
  destruct (certs_all_valid cert); [|discriminate]. simpl.
  destruct (get_eq (cleaning_done clean) 1 0); [discriminate|].
  intros _. rewrite andb_false_r. destruct (bool_decide _); reflexivity.
Qed.

Lemma X1_ready_train_witness :
  is_pair_feasible "T1" (job_card (fleet [service_S1]))
    (certificate_validity (fleet [service_S1]))
    (cleaning_roster (fleet [service_S1])) service_S1 = true.
Proof. apply X1_ready_train_feasible_everywhere. reflexivity. Defined.

(** X2.  For a slot whose role normalises to "service", the pair is
    feasible exactly when the train's readiness risk is 0. *)
Theorem X2_service_feasible_iff_ready t d s :
  norm_role s = "service" →
  is_pair_feasible t (job_card d) (certificate_validity d) (cleaning_roster d) s = true
  ↔ readiness_risk t (job_card d) (certificate_validity d) (cleaning_roster d) = 0%Z.
Proof.
  intros Hr. split; [|apply ready_train_feasible].
  unfold readiness_risk, is_pair_feasible.
  destruct (loc_train job_train_id (job_card d) t) as [|job ?]; [discriminate|].
  destruct (loc_train cert_train_id (certificate_validity d) t) as [|cert ?];
    [discriminate|].
  destruct (loc_train clean_train_id (cleaning_roster d) t) as [|clean ?];
    [discriminate|].
  rewrite Hr. rewrite bool_decide_eq_true_2 by reflexivity. simpl.
  destruct (get_eq (blocked job) 0 1); [discriminate|].
  destruct (certs_all_valid cert); [|discriminate]. simpl.
  destruct (get_eq (cleaning_done clean) 1 0); [discriminate | reflexivity].
Qed.

Lemma X2_service_witness :
  is_pair_feasible "T2" (job_card (fleet [lowercase_service_S1]))
    (certificate_validity (fleet [lowercase_service_S1]))
    (cleaning_roster (fleet [lowercase_service_S1])) lowercase_service_S1 = true
  ↔ readiness_risk "T2" (job_card (fleet [lowercase_service_S1]))
      (certificate_validity (fleet [lowercase_service_S1]))
      (cleaning_roster (fleet [lowercase_service_S1])) = 0%Z.
Proof. apply X2_service_feasible_iff_ready. reflexivity. Defined.

Lemma mileage_penalty_leb_0 t mileage_df :
  Float.leb (Float.of_Z 0) (mileage_penalty t mileage_df) = true.
Proof.
  unfold mileage_penalty.
  destruct (loc_train mileage_train_id mileage_df t) as [|row ?]; [reflexivity|].
  unfold Float.max.
  destruct (Float.ltb (Float.of_Z 0) _) eqn:E; [apply ltb_leb, E | reflexivity].
Qed.

(** X3.  The mileage penalty is never negative and never NaN, whatever the
    mileage cell holds (a negative number, NaN, an infinity) and also when
    the train has no mileage row. *)
Theorem X3_mileage_penalty_nonneg t mileage_df :
  Float.leb (Float.of_Z 0) (mileage_penalty t mileage_df) = true.
Proof.
  unfold mileage_penalty.
  destruct (loc_train mileage_train_id mileage_df t) as [|row ?]; [reflexivity|].
  unfold Float.max.
  destruct (Float.ltb (Float.of_Z 0) _) eqn:E; [apply ltb_leb, E | reflexivity].
Qed.

(** X4.  A certificate row that lacks one of the three certificate columns
    counts as invalid: the train is infeasible for every slot whose role
    normalises to "service", and its readiness risk is at least 4. *)
Theorem X4_absent_certificate_column_invalid t d s cert rest :
  loc_train cert_train_id (certificate_validity d) t = cert :: rest →
  brake_test_valid cert = None ∨ pto_valid cert = None ∨ atp_valid cert = None →
  (norm_role s = "service" →
   is_pair_feasible t (job_card d) (certificate_validity d) (cleaning_roster d) s = false)
  ∧ (4 <= readiness_risk t (job_card d) (certificate_validity d) (cleaning_roster d))%Z.
Proof.
  intros Hc Hcol.
  assert (Hv : certs_all_valid cert = false).
  { unfold certs_all_valid. simpl.
    destruct Hcol as [-> | [-> | ->]]; simpl;
      rewrite ?andb_false_r; reflexivity. }
  unfold readiness_risk, is_pair_feasible. rewrite Hc.
  destruct (loc_train job_train_id (job_card d) t) as [|job ?]; [split; [done | lia]|].
  destruct (loc_train clean_train_id (cleaning_roster d) t) as [|clean ?];
    [split; [done | lia]|].
  rewrite Hv. simpl. split.
  - intros ->. rewrite bool_decide_eq_true_2 by reflexivity. simpl.
    destruct (get_eq (blocked job) 0 1); reflexivity.
  - destruct (get_eq (blocked job) 0 1); lia.
Qed.

Lemma X4_brake_only_witness :
  (norm_role service_S1 = "service" →
   is_pair_feasible "T1" (job_card (sparse [cert_brake_only "T1"] [service_S1]))
     (certificate_validity (sparse [cert_brake_only "T1"] [service_S1]))
     (cleaning_roster (sparse [cert_brake_only "T1"] [service_S1])) service_S1 = false)
  ∧ (4 <= readiness_risk "T1" (job_card (sparse [cert_brake_only "T1"] [service_S1]))
            (certificate_validity (sparse [cert_brake_only "T1"] [service_S1]))
            (cleaning_roster (sparse [cert_brake_only "T1"] [service_S1])))%Z.
Proof.
  apply (X4_absent_certificate_column_invalid "T1"
           (sparse [cert_brake_only "T1"] [service_S1]) service_S1
           (cert_brake_only "T1") []).
  - reflexivity.
  - right; left; reflexivity.
Defined.

(** X5.  The job-card and cleaning defaults go the other way: a job row
    without a [blocked] column reads as not blocked and a cleaning row
    without a [cleaning_done] column reads as cleaned, so with valid
    certificates such a train has readiness risk 0 and is feasible for
    every slot. *)
Theorem X5_absent_blocked_and_cleaning_pass t d s job jrest cert crest clean lrest :
  loc_train job_train_id (job_card d) t = job :: jrest →
  loc_train cert_train_id (certificate_validity d) t = cert :: crest →
  loc_train clean_train_id (cleaning_roster d) t = clean :: lrest →
  blocked job = None → cleaning_done clean = None →
  certs_all_valid cert = true →
  readiness_risk t (job_card d) (certificate_validity d) (cleaning_roster d) = 0%Z
  ∧ is_pair_feasible t (job_card d) (certificate_validity d) (cleaning_roster d) s = true.
Proof.
  intros Hj Hc Hl Hb Hcl Hv.
  assert (H0 : readiness_risk t (job_card d) (certificate_validity d)
                 (cleaning_roster d) = 0%Z).
  { unfold readiness_risk. rewrite Hj, Hc, Hl, Hb, Hcl, Hv. reflexivity. }
  split; [exact H0 | apply ready_train_feasible, H0].
Qed.

Lemma X5_absent_columns_witness :
  readiness_risk "T1" (job_card (sparse [mkcert "T1" 1 1 1] [service_S1]))
    (certificate_validity (sparse [mkcert "T1" 1 1 1] [service_S1]))
    (cleaning_roster (sparse [mkcert "T1" 1 1 1] [service_S1])) = 0%Z
  ∧ is_pair_feasible "T1" (job_card (sparse [mkcert "T1" 1 1 1] [service_S1]))
      (certificate_validity (sparse [mkcert "T1" 1 1 1] [service_S1]))
      (cleaning_roster (sparse [mkcert "T1" 1 1 1] [service_S1])) service_S1 = true.
Proof.
  apply (X5_absent_blocked_and_cleaning_pass "T1"
           (sparse [mkcert "T1" 1 1 1] [service_S1]) service_S1
           (job_no_blocked "T1") [] (mkcert "T1" 1 1 1) [] (clean_no_flag "T1") []);
    reflexivity.
Defined.

End ReadinessFacts.

(** ** The single-rule helpers of constraints.py *)

Section RuleHelpers.
Import constraints cost_model constraints_rules Samples MoreSamples.

(** X6.  On a slot whose role is written exactly "Service", and for rows
    that carry the columns the helpers index, [is_pair_feasible] is the
    conjunction of the three single-rule helpers [is_jobcard_allowed],
    [is_cert_valid] and [is_cleaning_ok]. *)
Theorem X6_rule_helpers_agree_on_Service t d s job jrest cert crest clean lrest bj bc bl :
  role s = Some "Service" →
  loc_train job_train_id (job_card d) t = job :: jrest →
  loc_train cert_train_id (certificate_validity d) t = cert :: crest →
  loc_train clean_train_id (cleaning_roster d) t = clean :: lrest →
  is_jobcard_allowed job s = Ok bj →
  is_cert_valid cert = Ok bc →
  is_cleaning_ok clean s = Ok bl →
  is_pair_feasible t (job_card d) (certificate_validity d) (cleaning_roster d) s
  = bj && bc && bl.
Proof.
  intros Hr Hj Hc Hl Hbj Hbc Hbl.
  unfold is_pair_feasible. rewrite Hj, Hc, Hl.
  assert (Hn : norm_role s = "service") by (unfold norm_role; rewrite Hr; reflexivity).
  rewrite Hn. rewrite bool_decide_eq_true_2 by reflexivity. simpl.
  unfold is_jobcard_allowed, is_cleaning_ok, role_is_Service, getitem_eq in *.
  rewrite Hr in *.
  destruct (blocked job) as [vb|]; [|discriminate]. simpl in Hbj.
  destruct (cleaning_done clean) as [vc|]; [|discriminate]. simpl in Hbl.
  unfold get_eq. simpl.
  assert (Hcert : certs_all_valid cert = bc).
  { unfold is_cert_valid, getitem_eq, certs_all_valid, get_eq in *. simpl.
    destruct (brake_test_valid cert) as [v1|]; [|discriminate]. simpl in *.
    destruct (cell_eq_int v1 1); simpl in *; [|congruence].
    destruct (pto_valid cert) as [v2|]; [|discriminate]. simpl in *.
    destruct (cell_eq_int v2 1); simpl in *; [|congruence].
    destruct (atp_valid cert) as [v3|]; [|discriminate]. simpl in *.
    destruct (cell_eq_int v3 1); simpl in *; congruence. }
  rewrite Hcert.
  destruct (cell_eq_int vb 1); simpl in Hbj; injection Hbj as <-; simpl; [reflexivity|].
  destruct bc; simpl; [|reflexivity].
  destruct (cell_eq_int vc 0); simpl in Hbl; injection Hbl as <-; reflexivity.
Qed.

Lemma X6_rule_helpers_witness :
  is_pair_feasible "T2" (job_card (fleet [service_S1]))
    (certificate_validity (fleet [service_S1]))
    (cleaning_roster (fleet [service_S1])) service_S1
  = false && true && true.
Proof.
  apply (X6_rule_helpers_agree_on_Service "T2" (fleet [service_S1]) service_S1
           (mkjob "T2" 1) [] (mkcert "T2" 1 1 1) [] (mkclean "T2" 1) []);
    reflexivity.
Defined.

End RuleHelpers.

(** ** Reasons and explanations *)

Section ExplanationFacts.
Import constraints cost_model cost_model_matrix explain explain_summary Samples MoreSamples.

(** X7.  For a slot whose role is written exactly "Service", the list of
    infeasibility reasons is non-empty exactly when the pair is infeasible. *)
Theorem X7_reasons_iff_infeasible_on_Service t s d :
  role s = Some "Service" →
  get_infeasibility_reasons t (Some s) d ≠ []
  ↔ is_pair_feasible t (job_card d) (certificate_validity d) (cleaning_roster d) s = false.
Proof.
  intros Hr. unfold get_infeasibility_reasons, is_pair_feasible.
  assert (Hn : norm_role s = "service") by (unfold norm_role; rewrite Hr; reflexivity).
  rewrite Hn, Hr. rewrite !bool_decide_eq_true_2 by reflexivity.
  destruct (loc_train job_train_id (job_card d) t) as [|job ?];
    destruct (loc_train cert_train_id (certificate_validity d) t) as [|cert ?];
    destruct (loc_train clean_train_id (cleaning_roster d) t) as [|clean ?];
    try destruct (get_eq (blocked job) 0 1);
    try destruct (certs_all_valid cert);
    try destruct (get_eq (cleaning_done clean) 1 0);
    vm_compute; split; congruence.
Qed.

Lemma X7_reasons_witness :
  get_infeasibility_reasons "T2" (Some service_S1) (fleet [service_S1]) ≠ []
  ↔ is_pair_feasible "T2" (job_card (fleet [service_S1]))
      (certificate_validity (fleet [service_S1]))
      (cleaning_roster (fleet [service_S1])) service_S1 = false.
Proof. apply X7_reasons_iff_infeasible_on_Service. reflexivity. Defined.

Lemma readiness_risk_values t job_df cert_df clean_df :
  readiness_risk t job_df cert_df clean_df ∈ [0; 1; 4; 5]%Z.
Proof.
  unfold readiness_risk. repeat case_match; set_solver.
Qed.

Lemma geb_3_geb_1 m :
  Float.geb m (Float.of_Z 3) = true → Float.geb m (Float.of_Z 1) = true.
Proof.
  unfold Float.geb, SFleb.
  change (Float.of_Z 3) with (S754_finite false 6755399441055744 (-51)).
  change (Float.of_Z 1) with (S754_finite false 4503599627370496 (-52)).
  destruct m as [s|[]| |[] mm e]; cbn -[Z.compare Pos.compare_cont]; try congruence.
  destruct (Z.compare_spec (-51) e), (Z.compare_spec (-52) e);
    try lia; congruence.
Qed.

(** X8.  [explain_reason] says "good fit" exactly when no threshold fires:
    readiness risk 0, mileage penalty not at or above 1, shunt proxy not at
    or above 4. *)
Theorem X8_explain_reason_good_fit t s d :
  explain_reason t s d = "good fit"
  ↔ readiness_risk t (job_card d) (certificate_validity d) (cleaning_roster d) = 0%Z
    ∧ Float.geb (mileage_penalty t (mileage d)) (Float.of_Z 1) = false
    ∧ Float.geb (shunt_proxy s) (Float.of_Z 4) = false.
Proof.
  unfold explain_reason.
  pose proof (readiness_risk_values t (job_card d) (certificate_validity d)
                (cleaning_roster d)) as Hr.
  pose proof (geb_3_geb_1 (mileage_penalty t (mileage d))) as H31.
  destruct (Float.geb (mileage_penalty t (mileage d)) (Float.of_Z 3));
    destruct (Float.geb (mileage_penalty t (mileage d)) (Float.of_Z 1));
    destruct (Float.geb (shunt_proxy s) (Float.of_Z 4));
    try (specialize (H31 eq_refl); discriminate H31);
    rewrite !elem_of_cons in Hr;
    destruct Hr as [-> | [-> | [-> | [-> | Hr]]]]; try (inversion Hr);
    vm_compute;
    (split;
     [ intros H; first [discriminate H | repeat split; reflexivity]
     | intros (H1 & H2 & H3); first [reflexivity | discriminate] ]).
Qed.

(** X9.  [top_reasons_from_breakdown], fed the three subscores of a pair as
    [explain_all] feeds them, answers ["good fit"] exactly when
    [explain_reason] answers "good fit" for that pair. *)
Theorem X9_top_reasons_agree_on_good_fit t s d :
  top_reasons_from_breakdown
    (readiness_risk t (job_card d) (certificate_validity d) (cleaning_roster d))
    (mileage_penalty t (mileage d)) (shunt_proxy s) = ["good fit"]
  ↔ explain_reason t s d = "good fit".
Proof.
  unfold explain_reason, top_reasons_from_breakdown.
  pose proof (readiness_risk_values t (job_card d) (certificate_validity d)
                (cleaning_roster d)) as Hr.
  destruct (Float.geb (mileage_penalty t (mileage d)) (Float.of_Z 3));
    destruct (Float.geb (mileage_penalty t (mileage d)) (Float.of_Z 1));
    destruct (Float.geb (shunt_proxy s) (Float.of_Z 4));
    rewrite !elem_of_cons in Hr;
    destruct Hr as [-> | [-> | [-> | [-> | Hr]]]]; try (inversion Hr);
    vm_compute; split; congruence.
Qed.

End ExplanationFacts.

(** ** The cost matrix, the feasibility map and the padding *)

Section MatrixFacts.
Import constraints cost_model cost_model_matrix constraints_rules solver Samples MoreSamples.

(** X10.  With unique slot ids the cost matrix is complete: for every
    train of the job card and every slot row, the cell at their labels can
    be read and holds the pair cost, [INF] included. *)
Theorem X10_build_cost_matrix_complete d w t s :
  NoDup (map slot_id (induction_slots d)) →
  t ∈ map job_train_id (job_card d) →
  s ∈ induction_slots d →
  at_get (build_cost_matrix d w) t (slot_id s) = Ok (compute_pair_cost t s d w).
Proof.
  intros Hnd Ht Hs.
  apply list_elem_of_lookup in Hs as [j Hj].
  rewrite at_get_unique.
  - f_equal. apply (build_cost_matrix_cell d w t j s Hnd Hj).
    apply elem_of_unique, Ht.
  - rewrite build_cost_matrix_index.
    apply count_label_NoDup; [apply NoDup_unique | apply elem_of_unique, Ht].
  - rewrite build_cost_matrix_columns.
    apply count_label_NoDup; [exact Hnd|].
    apply list_elem_of_fmap. exists s. split; [done|].
    eapply list_elem_of_lookup_2, Hj.
Qed.

Lemma X10_cost_matrix_witness :
  at_get (build_cost_matrix (fleet [service_S1; standby_S2]) None) "T2" (slot_id service_S1)
  = Ok (compute_pair_cost "T2" service_S1 (fleet [service_S1; standby_S2]) None).
Proof.
  apply X10_build_cost_matrix_complete.
  - vm_compute. apply NoDup_ListNoDup. repeat constructor; simpl; intuition discriminate.
  - vm_compute. right; left.
  - left.
Defined.

(** Writes on a grid of keys, as the two nested loops make them. *)
Lemma grid_column_lookup {A} (v : string → A) (m : gmap (string * string) A)
    (sid : string) trains t c :
  foldl (fun m t => <[(t, sid) := v t]> m) m trains !! (t, c) =
  if bool_decide (c = sid ∧ t ∈ trains) then Some (v t) else m !! (t, c).
Proof.
  revert m. induction trains as [|t0 trains IH]; intros m.
  - simpl. rewrite bool_decide_eq_false_2; [done|]. intros [_ H]. inversion H.
  - cbn [foldl]. rewrite IH.
    destruct (decide (c = sid ∧ t ∈ trains)) as [H|H].
    + rewrite !bool_decide_eq_true_2; [done| |done]. split; [tauto | right; tauto].
    + rewrite (bool_decide_eq_false_2 _ H).
      destruct (decide ((t0, sid) = (t, c))) as [[= -> ->]|Hne].
      * rewrite lookup_insert_eq. rewrite bool_decide_eq_true_2; [done|].
        split; [done | left].
      * rewrite lookup_insert_ne by exact Hne.
        rewrite bool_decide_eq_false_2; [done|].
        rewrite elem_of_cons. intros [-> [-> | ?]]; [congruence | tauto].
Qed.

Lemma grid_lookup_outside {A} (v : string → slot_row → A)
    (m : gmap (string * string) A) slots trains t c :
  t ∉ trains ∨ c ∉ map slot_id slots →
  foldl (fun m s => foldl (fun m t => <[(t, slot_id s) := v t s]> m) m trains)
        m slots !! (t, c) = m !! (t, c).
Proof.
  revert m. induction slots as [|s slots IH]; intros m Hout; [done|].
  cbn [foldl]. rewrite IH.
  - rewrite (grid_column_lookup (fun t => v t s)).
    rewrite bool_decide_eq_false_2; [done|].
    intros [-> Ht]. destruct Hout as [? | Hc]; [done|].
    apply Hc. left.
  - destruct Hout as [? | Hc]; [left; done | right].
    intros Hin. apply Hc. right. exact Hin.
Qed.

Lemma grid_lookup_inside {A} (v : string → slot_row → A)
    (m : gmap (string * string) A) slots trains t s :
  NoDup (map slot_id slots) → s ∈ slots → t ∈ trains →
  foldl (fun m s => foldl (fun m t => <[(t, slot_id s) := v t s]> m) m trains)
        m slots !! (t, slot_id s) = Some (v t s).
Proof.
  revert m. induction slots as [|s0 slots IH]; intros m Hnd Hs Ht; [inversion Hs|].
  simpl in Hnd. apply NoDup_cons in Hnd as [Hs0 Hnd].
  cbn [foldl]. apply elem_of_cons in Hs as [-> | Hs].
  - rewrite grid_lookup_outside by (right; exact Hs0).
    rewrite (grid_column_lookup (fun t => v t s0)).
    rewrite bool_decide_eq_true_2; done.
  - apply IH; assumption.
Qed.

(** X11.  With unique slot ids, the feasibility map holds, for every train
    of the job card and every slot row, what [is_pair_feasible] says of the
    pair, and it has no other key. *)
Theorem X11_feasibility_map_lookup d :
  NoDup (map slot_id (induction_slots d)) →
  (∀ t s, t ∈ map job_train_id (job_card d) → s ∈ induction_slots d →
     build_feasibility_map d !! (t, slot_id s)
     = Some (is_pair_feasible t (job_card d) (certificate_validity d)
               (cleaning_roster d) s))
  ∧ (∀ t sid, is_Some (build_feasibility_map d !! (t, sid)) →
       t ∈ map job_train_id (job_card d) ∧ sid ∈ map slot_id (induction_slots d)).
Proof.
  intros Hnd. unfold build_feasibility_map. split.
  - intros t s Ht Hs.
    apply (grid_lookup_inside
             (fun t s => is_pair_feasible t (job_card d) (certificate_validity d)
                           (cleaning_roster d) s)); [done | done |].
    apply elem_of_unique, Ht.
  - intros t sid [b Hb].
    destruct (decide (t ∈ unique (map job_train_id (job_card d)))) as [Ht|Ht];
      [destruct (decide (sid ∈ map slot_id (induction_slots d))) as [Hs|Hs]|].
    + split; [apply elem_of_unique, Ht | exact Hs].
    + rewrite (grid_lookup_outside
                 (fun t s => is_pair_feasible t (job_card d) (certificate_validity d)
                               (cleaning_roster d) s)) in Hb by (right; exact Hs).
      rewrite lookup_empty in Hb. discriminate.
    + rewrite (grid_lookup_outside
                 (fun t s => is_pair_feasible t (job_card d) (certificate_validity d)
                               (cleaning_roster d) s)) in Hb by (left; exact Ht).
      rewrite lookup_empty in Hb. discriminate.
Qed.

Lemma X11_feasibility_map_witness :
  build_feasibility_map (fleet [service_S1; standby_S2]) !! ("T2", slot_id service_S1)
  = Some false.
Proof.
  destruct (X11_feasibility_map_lookup (fleet [service_S1; standby_S2])) as [H _].
  - vm_compute. apply NoDup_ListNoDup. repeat constructor; simpl; intuition discriminate.
  - apply (H "T2" service_S1); [right; left | left].
Defined.

(** X12.  The feasibility map and the cost matrix agree: with unique slot
    ids, a pair the map marks infeasible has the cell [INF] in the matrix,
    and a cell other than [INF] belongs to a pair the map marks feasible. *)
Theorem X12_infeasible_in_map_is_INF_in_matrix d w t s :
  NoDup (map slot_id (induction_slots d)) →
  t ∈ map job_train_id (job_card d) →
  s ∈ induction_slots d →
  (build_feasibility_map d !! (t, slot_id s) = Some false →
   at_get (build_cost_matrix d w) t (slot_id s) = Ok INF)
  ∧ (at_get (build_cost_matrix d w) t (slot_id s) ≠ Ok INF →
     build_feasibility_map d !! (t, slot_id s) = Some true).
Proof.
  intros Hnd Ht Hs.
  assert (Hcell : at_get (build_cost_matrix d w) t (slot_id s)
                  = Ok (compute_pair_cost t s d w)).
  { apply list_elem_of_lookup in Hs as [j Hj].
    rewrite at_get_unique.
    - f_equal. apply (build_cost_matrix_cell d w t j s Hnd Hj).
      apply elem_of_unique, Ht.
    - rewrite build_cost_matrix_index.
      apply count_label_NoDup; [apply NoDup_unique | apply elem_of_unique, Ht].
    - rewrite build_cost_matrix_columns.
      apply count_label_NoDup; [exact Hnd|].
      apply list_elem_of_fmap. exists s. split; [done|].
      eapply list_elem_of_lookup_2, Hj. }
  assert (Hmap : build_feasibility_map d !! (t, slot_id s)
                 = Some (is_pair_feasible t (job_card d) (certificate_validity d)
                           (cleaning_roster d) s)).
  { unfold build_feasibility_map.
    apply (grid_lookup_inside
             (fun t s => is_pair_feasible t (job_card d) (certificate_validity d)
                           (cleaning_roster d) s)); [done | done |].
    apply elem_of_unique, Ht. }
  rewrite Hcell, Hmap, compute_pair_cost_unfold.
  destruct (is_pair_feasible _ _ _ _ _); split; intros H; congruence.
Qed.

Lemma X12_map_matrix_witness :
  (build_feasibility_map (fleet [service_S1; standby_S2]) !! ("T2", slot_id service_S1)
   = Some false →
   at_get (build_cost_matrix (fleet [service_S1; standby_S2]) None) "T2"
     (slot_id service_S1) = Ok INF)
  ∧ (at_get (build_cost_matrix (fleet [service_S1; standby_S2]) None) "T2"
       (slot_id service_S1) ≠ Ok INF →
     build_feasibility_map (fleet [service_S1; standby_S2]) !! ("T2", slot_id service_S1)
     = Some true).
Proof.
  apply X12_infeasible_in_map_is_INF_in_matrix.
  - vm_compute. apply NoDup_ListNoDup. repeat constructor; simpl; intuition discriminate.
  - right; left.
  - left.
Defined.

(** X13.  On a frame with unique labels, whatever the padding value,
    [pad_to_square] returns the labels unchanged and a matrix of [n] rows of
    [n] cells, [n] the larger of the two label counts, that holds the
    frame's cell at every real position and the padding value at every
    other position. *)
Theorem X13_pad_to_square_shape m pad :
  NoDup (index m) → NoDup (columns m) →
  ∃ sq, pad_to_square m pad = Ok (sq, index m, columns m)
        ∧ is_square (length (index m) `max` length (columns m)) sq
        ∧ (∀ i j r c, index m !! i = Some r → columns m !! j = Some c →
             get2 sq i j = Some (cell_value m r c))
        ∧ (∀ i j, (i < length (index m) `max` length (columns m))%nat →
                  (j < length (index m) `max` length (columns m))%nat →
                  ¬ ((i < length (index m))%nat ∧ (j < length (columns m))%nat) →
                  get2 sq i j = Some pad).
Proof.
  intros Hi Hc. exists (padded m pad). split; [apply pad_to_square_NoDup; assumption|].
  split; [apply padded_square|]. split.
  - intros i j r c. apply padded_real.
  - intros i j. apply padded_padding.
Qed.

Lemma X13_pad_witness :
  ∃ sq, pad_to_square {| index := ["T1"; "T2"]; columns := ["S1"]; cells := ∅ |}
          (Float.of_Z 7)
        = Ok (sq, ["T1"; "T2"], ["S1"])
        ∧ get2 sq 1 1 = Some (Float.of_Z 7).
Proof.
  destruct (X13_pad_to_square_shape
              {| index := ["T1"; "T2"]; columns := ["S1"]; cells := ∅ |} (Float.of_Z 7))
    as (sq & H1 & _ & _ & H4).
  - apply NoDup_ListNoDup. repeat constructor; simpl; intuition discriminate.
  - apply NoDup_singleton.
  - exists sq. split; [exact H1|]. apply H4; simpl; lia.
Defined.

End MatrixFacts.

(** ** What the returned table says *)

Section RowFacts.
Import constraints cost_model cost_model_matrix solver solver_rows Samples MoreSamples.

Lemma lsa_exhaustive_contract d w : matching_contract lsa_exhaustive d w.
Proof.
  intros sq trains slots _.
  split; [apply lsa_exhaustive_rows | apply lsa_exhaustive_perm].
Qed.

Lemma decode_pair_decoded d sq trains slots acc r c acc' :
  decode_pair d sq trains slots acc (r, c) = Ok acc' →
  (∃ a, acc' = acc ++ [a] ∧ decoded d sq trains slots r c a)
  ∨ ((length trains ≤ r)%nat ∧ acc' = acc).
Proof.
  unfold decode_pair, decoded.
  destruct (decide (r < length trains)%nat) as [Hr|Hr].
  - rewrite !(bool_decide_eq_true_2 _ Hr). simpl.
    destruct (lookup_lt_is_Some_2 _ _ Hr) as [t Ht]. rewrite Ht.
    intros H. left.
    destruct (bool_decide (c < length slots)%nat) eqn:Hc.
    + destruct (slots !! c) as [sid|] eqn:Hsid; [|discriminate].
      destruct (get2 sq r c) as [v|] eqn:Hv; [|discriminate].
      destruct (Float.geb v INF_tenth) eqn:Hge.
      * injection H as <-. eexists. split; [reflexivity|].
        exists t. split; [reflexivity|]. left. exists sid, v. done.
      * destruct (filter _ (induction_slots d)) as [|s rest] eqn:Hf; [discriminate|].
        injection H as <-. eexists. split; [reflexivity|].
        exists t. split; [reflexivity|]. right; left. exists sid, v, s, rest. done.
    + destruct (bool_decide (length slots ≤ c)%nat) eqn:Hc'.
      * injection H as <-. eexists. split; [reflexivity|].
        exists t. split; [reflexivity|]. right; right.
        apply bool_decide_eq_true in Hc'. done.
      * apply bool_decide_eq_false in Hc, Hc'. lia.
  - rewrite !(bool_decide_eq_false_2 _ Hr). simpl.
    intros [= <-]. right. split; [lia | done].
Qed.

(** The rows the loop appends, one for each matched pair of a real train. *)
Lemma decode_loop_decoded d sq trains slots pairs : ∀ acc acc',
  foldlM (decode_pair d sq trains slots) acc pairs = Ok acc' →
  ∃ new, acc' = acc ++ new
         ∧ Forall2 (fun a rc => decoded d sq trains slots rc.1 rc.2 a) new
             (filter (fun rc => (rc.1 < length trains)%nat) pairs).
Proof.
  induction pairs as [|[r c] pairs IH]; intros acc acc' H.
  - simpl in H. injection H as <-. exists []. rewrite app_nil_r. split; [done|].
    constructor.
  - apply foldlM_cons_Ok in H as (acc1 & E & H).
    apply IH in H as (new & -> & Hnew).
    apply decode_pair_decoded in E as [(a & -> & Ha) | [Hge ->]].
    + exists (a :: new). rewrite <- app_assoc. split; [done|].
      destruct Ha as (t & Ht & Ha).
      rewrite filter_cons_True by (simpl; eapply lookup_lt_Some, Ht).
      constructor; [|exact Hnew]. exists t. done.
    + exists new. split; [done|].
      rewrite filter_cons_False by (simpl; lia). exact Hnew.
Qed.

Lemma elem_of_zip_seq (cols : list nat) n r c :
  (r, c) ∈ zip (seq 0 n) cols → cols !! r = Some c ∧ (r < n)%nat.
Proof.
  intros H. apply list_elem_of_lookup in H as [i Hi].
  apply lookup_zip_with_Some in Hi as (x & y & [= <- <-] & Hx & Hy).
  apply lookup_seq in Hx as [-> Hlt]. done.
Qed.

Lemma filter_none {A} (P : A → Prop) `{∀ x, Decision (P x)} (l : list A) :
  (∀ y, y ∈ l → ¬ P y) → filter P l = [].
Proof.
  induction l as [|y l IH]; intros Hl; [done|].
  rewrite filter_cons_False by (apply Hl; left).
  apply IH. intros z Hz. apply Hl. right. exact Hz.
Qed.

Lemma filter_unique_key {A} (f : A → string) (l : list A) a :
  NoDup (map f l) → a ∈ l → filter (fun x => f x = f a) l = [a].
Proof.
  induction l as [|x l IH]; intros Hnd Ha; [inversion Ha|].
  simpl in Hnd. apply NoDup_cons in Hnd as [Hx Hnd].
  assert (Hfresh : ∀ y, y ∈ l → f y ≠ f x).
  { intros y Hy E. apply Hx. apply list_elem_of_fmap. exists y. done. }
  apply elem_of_cons in Ha as [-> | Ha].
  - rewrite filter_cons_True by done. f_equal.
    apply filter_none. exact Hfresh.
  - rewrite filter_cons_False by (apply not_eq_sym, Hfresh, Ha).
    apply IH; assumption.
Qed.

(** With distinct train ids in the rows, re-indexing by those ids in
    their own order gives the rows back. *)
Lemma reindex_by_train_same asg :
  asg ≠ [] → NoDup (map train_id asg) →
  reindex_by_train asg (map train_id asg) = Ok asg.
Proof.
  intros Hne Hnd. unfold reindex_by_train.
  destruct asg as [|a0 rest] eqn:E; [done|]. rewrite <- E in *. clear E a0 rest Hne.
  rewrite bool_decide_eq_true_2 by exact Hnd. f_equal.
  rewrite map_map. transitivity (map id asg); [|apply map_id].
  apply map_ext_in. intros a Ha%list_elem_of_In.
  rewrite (filter_unique_key train_id asg a Hnd Ha). reflexivity.
Qed.

(** The decoded rows behind a returned table. *)
Lemma solve_and_extract_rows lsa d w df :
  matching_contract lsa d w →
  solve_and_extract lsa d w = Ok df →
  ∃ asg,
    Forall2 (fun a rc =>
               decoded d (padded (build_cost_matrix d w) INF)
                 (unique (map job_train_id (job_card d)))
                 (map slot_id (induction_slots d)) rc.1 rc.2 a)
      asg
      (filter (fun rc => (rc.1 < length (unique (map job_train_id (job_card d))))%nat)
         (zip (seq 0 (length (padded (build_cost_matrix d w) INF)))
              (lsa (padded (build_cost_matrix d w) INF)).2))
    ∧ reindex_by_train asg (map job_train_id (job_card d)) = Ok df
    ∧ map train_id asg = unique (map job_train_id (job_card d))
    ∧ (lsa (padded (build_cost_matrix d w) INF)).2
        ≡ₚ seq 0 (length (padded (build_cost_matrix d w) INF))
    ∧ NoDup (map slot_id (induction_slots d)).
Proof.
  intros Hlsa H. unfold solve_and_extract in H.
  destruct (solve_matching lsa d w) as [[[[sq trains] slots] [ri ci]]|e] eqn:E;
    simpl in H; [|discriminate].
  pose proof E as E0. unfold solve_matching in E0.
  destruct (pad_to_square (build_cost_matrix d w) INF) as [[[sq0 tr0] sl0]|e] eqn:Epad;
    simpl in E0; [|discriminate].
  destruct (Hlsa _ _ _ Epad) as [Hrows Hperm].
  apply pad_to_square_Ok_inv in Epad as (_ & _ & -> & _). clear E0.
  apply solve_matching_Ok_inv in E as (-> & -> & -> & Hrc & Hnd).
  rewrite <- Hrc in Hrows, Hperm. simpl in Hrows, Hperm. subst ri.
  destruct (foldlM _ [] _) as [asg|e] eqn:E2; simpl in H; [|discriminate].
  pose proof E2 as E3.
  apply decode_loop_decoded in E2 as (new & -> & Hnew).
  apply decode_loop_inv in E3 as (new' & Hn & Hids & _);
    [|rewrite (Permutation_length Hperm); apply length_seq].
  simpl in Hn. subst new'. simpl in H.
  rewrite drop_0, take_ge in Hids by (rewrite padded_length; lia).
  exists new. rewrite <- Hrc. simpl.
  split; [exact Hnew|]. split; [exact H|]. split; [exact Hids|].
  split; [exact Hperm|].
  apply Hnd. intros Hj.
  unfold reindex_by_train in H. destruct new; [discriminate|].
  rewrite Hj in Hids. discriminate Hids.
Qed.

(** Every row of a returned table is a decoded row of some matched pair
    [(r, c)], where [c] is the column the matching gives row [r]. *)
Lemma solve_and_extract_row lsa d w df a :
  matching_contract lsa d w →
  solve_and_extract lsa d w = Ok df → a ∈ df →
  NoDup (map slot_id (induction_slots d))
  ∧ NoDup (lsa (padded (build_cost_matrix d w) INF)).2
  ∧ ∃ r c,
      (lsa (padded (build_cost_matrix d w) INF)).2 !! r = Some c
      ∧ (c < length (unique (map job_train_id (job_card d)))
             `max` length (induction_slots d))%nat
      ∧ decoded d (padded (build_cost_matrix d w) INF)
          (unique (map job_train_id (job_card d)))
          (map slot_id (induction_slots d)) r c a.
Proof.
  intros Hlsa H Ha.
  destruct (solve_and_extract_rows lsa d w df Hlsa H)
    as (asg & Hdec & Hre & Hids & Hperm & Hnd).
  split; [exact Hnd|].
  assert (Hlen : length (padded (build_cost_matrix d w) INF)
                 = (length (unique (map job_train_id (job_card d)))
                    `max` length (induction_slots d))%nat).
  { rewrite padded_length, length_map. reflexivity. }
  split.
  { rewrite Hperm. apply NoDup_seq. }
  apply reindex_by_train_inv in Hre as [_ Hsub].
  - rewrite Forall_forall in Hsub. specialize (Hsub a Ha).
    apply list_elem_of_lookup in Hsub as [i Hi].
    destruct (Forall2_lookup_l _ _ _ _ _ Hdec Hi) as ([r c] & Hrc & Hd).
    apply list_elem_of_lookup_2, list_elem_of_filter in Hrc as [_ Hrc].
    apply elem_of_zip_seq in Hrc as [Hc _].
    exists r, c. split; [exact Hc|]. split; [|exact Hd].
    assert (Hin : c ∈ seq 0 (length (padded (build_cost_matrix d w) INF))).
    { rewrite <- Hperm. eapply list_elem_of_lookup_2, Hc. }
    apply elem_of_seq in Hin. lia.
  - intros t Ht. rewrite Hids. apply elem_of_unique, Ht.
Qed.

Lemma geb_INF_INF_tenth : Float.geb INF INF_tenth = true.
Proof. reflexivity. Qed.

(** The facts behind a row that names a real slot. *)
Lemma assigned_row_facts lsa d w df a sid :
  matching_contract lsa d w →
  solve_and_extract lsa d w = Ok df → a ∈ df →
  assigned_slot a = Some sid →
  ∃ s, s ∈ induction_slots d ∧ slot_id s = sid ∧ slot_role a = role s
       ∧ is_pair_feasible (train_id a) (job_card d) (certificate_validity d)
           (cleaning_roster d) s = true
       ∧ cost a = Some (compute_pair_cost (train_id a) s d w)
       ∧ Float.geb (compute_pair_cost (train_id a) s d w) INF_tenth = false
       ∧ explanation a = Some (explain_reason (train_id a) s d).
Proof.
  intros Hlsa H Ha Hsid.
  destruct (solve_and_extract_row lsa d w df a Hlsa H Ha)
    as (Hnd & _ & r & c & _ & _ & t & Ht & Hd).
  destruct Hd as [(? & ? & _ & _ & _ & ->) | [Hd | [_ ->]]]; [discriminate| |discriminate].
  destruct Hd as (sid' & v & s & rest & Hc & Hv & Hge & Hf & ->).
  simpl in Hsid. injection Hsid as ->. simpl.
  rewrite list_lookup_fmap in Hc.
  destruct (induction_slots d !! c) as [s0|] eqn:Hs0; [|discriminate].
  simpl in Hc. injection Hc as <-.
  assert (Hin : s0 ∈ induction_slots d) by (eapply list_elem_of_lookup_2, Hs0).
  rewrite (filter_unique_key slot_id _ s0 Hnd Hin) in Hf. injection Hf as <- <-.
  rewrite (padded_real _ _ r c t (slot_id s0)) in Hv.
  - injection Hv as <-.
    rewrite (build_cost_matrix_cell d w t c s0 Hnd Hs0) in *
      by (eapply list_elem_of_lookup_2, Ht).
    exists s0. repeat split; try done.
    destruct (is_pair_feasible t (job_card d) (certificate_validity d)
                (cleaning_roster d) s0) eqn:Hfeas; [done|].
    rewrite compute_pair_cost_unfold, Hfeas, geb_INF_INF_tenth in Hge. discriminate.
  - rewrite build_cost_matrix_index. exact Ht.
  - rewrite build_cost_matrix_columns, list_lookup_fmap, Hs0. done.
Qed.

(** X14.  A row of the returned table that names a slot names a slot of
    the slot table for which the train is feasible; the row carries that
    slot's role, the pair cost (which is below [INF / 10]) and the pair's
    explanation.  An infeasible pair is never reported as an assignment. *)
Theorem X14_assigned_pair_is_feasible lsa d w df a sid :
  matching_contract lsa d w →
  solve_and_extract lsa d w = Ok df → a ∈ df →
  assigned_slot a = Some sid →
  ∃ s, s ∈ induction_slots d ∧ slot_id s = sid ∧ slot_role a = role s
       ∧ is_pair_feasible (train_id a) (job_card d) (certificate_validity d)
           (cleaning_roster d) s = true
       ∧ cost a = Some (compute_pair_cost (train_id a) s d w)
       ∧ Float.geb (compute_pair_cost (train_id a) s d w) INF_tenth = false
       ∧ explanation a = Some (explain_reason (train_id a) s d).
Proof.
  intros Hlsa H Ha Hsid.
  destruct (solve_and_extract_row lsa d w df a Hlsa H Ha)
    as (Hnd & _ & r & c & _ & _ & t & Ht & Hd).
  destruct Hd as [(? & ? & _ & _ & _ & ->) | [Hd | [_ ->]]]; [discriminate| |discriminate].
  destruct Hd as (sid' & v & s & rest & Hc & Hv & Hge & Hf & ->).
  simpl in Hsid. injection Hsid as ->. simpl.
  rewrite list_lookup_fmap in Hc.
  destruct (induction_slots d !! c) as [s0|] eqn:Hs0; [|discriminate].
  simpl in Hc. injection Hc as <-.
  assert (Hin : s0 ∈ induction_slots d) by (eapply list_elem_of_lookup_2, Hs0).
  rewrite (filter_unique_key slot_id _ s0 Hnd Hin) in Hf. injection Hf as <- <-.
  rewrite (padded_real _ _ r c t (slot_id s0)) in Hv.
  - injection Hv as <-.
    rewrite (build_cost_matrix_cell d w t c s0 Hnd Hs0) in *
      by (eapply list_elem_of_lookup_2, Ht).
    exists s0. repeat split; try done.
    destruct (is_pair_feasible t (job_card d) (certificate_validity d)
                (cleaning_roster d) s0) eqn:Hfeas; [done|].
    rewrite compute_pair_cost_unfold, Hfeas, geb_INF_INF_tenth in Hge. discriminate.
  - rewrite build_cost_matrix_index. exact Ht.
  - rewrite build_cost_matrix_columns, list_lookup_fmap, Hs0. done.
Qed.

Lemma X14_assigned_pair_witness :
  ∃ s, s ∈ induction_slots (fleet [service_S1])
       ∧ is_pair_feasible "T1" (job_card (fleet [service_S1]))
           (certificate_validity (fleet [service_S1]))
           (cleaning_roster (fleet [service_S1])) s = true.
Proof.
  destruct (X14_assigned_pair_is_feasible lsa_exhaustive (fleet [service_S1]) None
              [ {| train_id := "T1"; assigned_slot := Some "S1";
                   slot_role := Some "Service";
                   cost := Some (Float.of_dyadic 1 (-2));
                   explanation := Some "good fit" |};
                unassigned "T2" "Assigned to dummy (no available real slot)" ]
              {| train_id := "T1"; assigned_slot := Some "S1";
                 slot_role := Some "Service";
                 cost := Some (Float.of_dyadic 1 (-2));
                 explanation := Some "good fit" |} "S1")
    as (s & Hs & _ & _ & Hf & _).
  - apply lsa_exhaustive_contract.
  - vm_compute. reflexivity.
  - left.
  - reflexivity.
  - exists s. split; [exact Hs | exact Hf].
Defined.

(** With distinct train ids in the decoded rows, the row of a train that
    the job card lists is in the re-indexed table. *)
Lemma reindex_by_train_elem asg ids df a :
  reindex_by_train asg ids = Ok df →
  a ∈ asg → train_id a ∈ ids → a ∈ df.
Proof.
  unfold reindex_by_train. intros H Ha Ht.
  destruct asg as [|a0 rest] eqn:E; [discriminate|]. rewrite <- E in *. clear E a0 rest.
  destruct (bool_decide (NoDup (map train_id asg))) eqn:Hnd; [|discriminate].
  apply bool_decide_eq_true in Hnd. injection H as <-.
  apply list_elem_of_fmap. exists (train_id a). split; [|exact Ht].
  rewrite (filter_unique_key train_id asg a Hnd Ha). reflexivity.
Qed.

(** X15.  A train of the job card that is infeasible for every slot of the
    table has its row in the returned table, and every row of that train
    is without a slot and without a cost; the table is returned whenever the
    slot ids are unique. *)
Theorem X15_all_infeasible_train_unassigned lsa d w t :
  matching_contract lsa d w →
  t ∈ map job_train_id (job_card d) →
  (∀ s, s ∈ induction_slots d →
     is_pair_feasible t (job_card d) (certificate_validity d)
       (cleaning_roster d) s = false) →
  (NoDup (map slot_id (induction_slots d)) →
   ∃ df, solve_and_extract lsa d w = Ok df)
  ∧ ∀ df, solve_and_extract lsa d w = Ok df →
      (∃ a, a ∈ df ∧ train_id a = t)
      ∧ ∀ a, a ∈ df → train_id a = t →
          assigned_slot a = None ∧ cost a = None.
Proof.
  intros Hlsa Ht Hall. split.
  { intros Hnd.
    destruct (Hlsa _ _ _ (pad_to_square_NoDup (build_cost_matrix d w) INF
                (eq_ind_r NoDup (NoDup_unique _) (build_cost_matrix_index d w))
                (eq_ind_r NoDup Hnd (build_cost_matrix_columns d w))))
      as [Hrows Hperm].
    apply solve_and_extract_total; [exact Hrows | | | exact Hnd].
    - rewrite (Permutation_length Hperm). apply length_seq.
    - intros E. rewrite E in Ht. inversion Ht. }
  intros df H. split.
  - destruct (solve_and_extract_rows lsa d w df Hlsa H)
      as (asg & _ & Hre & Hids & _ & _).
    apply reindex_by_train_inv in Hre as [Hmap _].
    + rewrite <- Hmap in Ht. apply list_elem_of_fmap in Ht as (a & -> & Ha).
      exists a. done.
    + intros t' Ht'. rewrite Hids. apply elem_of_unique, Ht'.
  - intros a Ha <-.
    destruct (assigned_slot a) as [sid|] eqn:Hsid.
    + destruct (assigned_row_facts lsa d w df a sid Hlsa H Ha Hsid)
        as (s & Hs & _ & _ & Hf & _).
      rewrite (Hall s Hs) in Hf. discriminate.
    + split; [done|].
      destruct (solve_and_extract_row lsa d w df a Hlsa H Ha)
        as (_ & _ & r & c & _ & _ & t & _ & Hd).
      destruct Hd as [(? & ? & _ & _ & _ & ->) | [Hd | [_ ->]]]; [done| |done].
      destruct Hd as (? & ? & ? & ? & _ & _ & _ & _ & ->). discriminate Hsid.
Qed.

Lemma X15_blocked_train_witness :
  ∃ df, solve_and_extract lsa_exhaustive (fleet [service_S1]) None = Ok df
        ∧ (∃ a, a ∈ df ∧ train_id a = "T2")
        ∧ ∀ a, a ∈ df → train_id a = "T2" → assigned_slot a = None ∧ cost a = None.
Proof.
  destruct (X15_all_infeasible_train_unassigned lsa_exhaustive (fleet [service_S1])
              None "T2") as [Htot Hrow].
  - apply lsa_exhaustive_contract.
  - right; left.
  - intros s Hs. apply list_elem_of_singleton in Hs as ->. reflexivity.
  - destruct Htot as [df Hdf]; [apply NoDup_singleton|].
    exists df. split; [exact Hdf|]. apply Hrow, Hdf.
Defined.

Lemma decoded_functional d sq trains slots r c a b :
  decoded d sq trains slots r c a → decoded d sq trains slots r c b → a = b.
Proof.
  intros (t & Ht & Ha) (t' & Ht' & Hb).
  rewrite Ht in Ht'. injection Ht' as <-.
  destruct Ha as [(sid & v & Hc & Hv & Hge & ->)
                 | [(sid & v & s & rest & Hc & Hv & Hge & Hf & ->) | [Hc ->]]];
    destruct Hb as [(sid' & v' & Hc' & Hv' & Hge' & ->)
                   | [(sid' & v' & s' & rest' & Hc' & Hv' & Hge' & Hf' & ->) | [Hc' ->]]];
    try reflexivity;
    try (rewrite Hc in Hc'; injection Hc' as <-);
    try (rewrite Hv in Hv'; injection Hv' as <-);
    try congruence;
    try (apply lookup_lt_Some in Hc; lia);
    try (apply lookup_lt_Some in Hc'; lia).
Qed.

(** X16.  No slot is given to two trains: two rows of the returned table
    that name the same slot are the same row. *)
Theorem X16_slots_not_shared lsa d w df a b sid :
  matching_contract lsa d w →
  solve_and_extract lsa d w = Ok df → a ∈ df → b ∈ df →
  assigned_slot a = Some sid → assigned_slot b = Some sid →
  a = b.
Proof.
  intros Hlsa H Ha Hb Hsa Hsb.
  destruct (solve_and_extract_row lsa d w df a Hlsa H Ha)
    as (Hnd & Hcols & r1 & c1 & Hr1 & _ & Hd1).
  destruct (solve_and_extract_row lsa d w df b Hlsa H Hb)
    as (_ & _ & r2 & c2 & Hr2 & _ & Hd2).
  assert (Hslot : ∀ r c x, decoded d (padded (build_cost_matrix d w) INF)
                    (unique (map job_train_id (job_card d)))
                    (map slot_id (induction_slots d)) r c x →
                  assigned_slot x = Some sid →
                  map slot_id (induction_slots d) !! c = Some sid).
  { intros r c x (t & _ & Hd) Hx.
    destruct Hd as [(? & ? & _ & _ & _ & ->) | [Hd | [_ ->]]]; [discriminate| |discriminate].
    destruct Hd as (sid' & ? & ? & ? & Hc & _ & _ & _ & ->).
    simpl in Hx. injection Hx as ->. exact Hc. }
  pose proof (Hslot _ _ _ Hd1 Hsa) as Hc1.
  pose proof (Hslot _ _ _ Hd2 Hsb) as Hc2.
  assert (c1 = c2) as <- by exact (NoDup_lookup _ _ _ _ Hnd Hc1 Hc2).
  assert (r1 = r2) as <- by exact (NoDup_lookup _ _ _ _ Hcols Hr1 Hr2).
  eapply decoded_functional; eauto.
Qed.

Lemma X16_slots_not_shared_witness :
  {| train_id := "T1"; assigned_slot := Some "S1"; slot_role := Some "Service";
     cost := Some (Float.of_dyadic 1 (-2)); explanation := Some "good fit" |}
  = {| train_id := "T1"; assigned_slot := Some "S1"; slot_role := Some "Service";
       cost := Some (Float.of_dyadic 1 (-2)); explanation := Some "good fit" |}.
Proof.
  apply (X16_slots_not_shared lsa_exhaustive (fleet [service_S1]) None
           [ {| train_id := "T1"; assigned_slot := Some "S1";
                slot_role := Some "Service";
                cost := Some (Float.of_dyadic 1 (-2));
                explanation := Some "good fit" |};
             unassigned "T2" "Assigned to dummy (no available real slot)" ]
           _ _ "S1").
  - apply lsa_exhaustive_contract.
  - vm_compute. reflexivity.
  - left.
  - left.
  - reflexivity.
  - reflexivity.
Defined.

Lemma decoded_dummy_iff d sq trains slots r c a :
  decoded d sq trains slots r c a →
  is_dummy_row a ↔ (length slots ≤ c)%nat.
Proof.
  intros (t & _ & Hd). unfold is_dummy_row.
  destruct Hd as [(sid & v & Hc & _ & _ & ->)
                 | [(sid & v & s & rest & Hc & _ & _ & _ & ->) | [Hc ->]]]; simpl.
  - apply lookup_lt_Some in Hc. split; [intros [_ [=]] | lia].
  - apply lookup_lt_Some in Hc. split; [intros [[=] _] | lia].
  - tauto.
Qed.

(** X17.  When there are at least as many slots as distinct trains, no
    train is reported as assigned to a dummy column. *)
Theorem X17_no_dummy_when_enough_slots lsa d w df a :
  matching_contract lsa d w →
  solve_and_extract lsa d w = Ok df → a ∈ df →
  (length (unique (map job_train_id (job_card d))) ≤ length (induction_slots d))%nat →
  ¬ is_dummy_row a.
Proof.
  intros Hlsa H Ha Hle Hdummy.
  destruct (solve_and_extract_row lsa d w df a Hlsa H Ha)
    as (_ & _ & r & c & _ & Hc & Hd).
  apply (decoded_dummy_iff _ _ _ _ _ _ _ Hd) in Hdummy.
  rewrite length_map in Hdummy. lia.
Qed.

Lemma X17_no_dummy_witness :
  ¬ is_dummy_row {| train_id := "T2"; assigned_slot := Some "S2";
                    slot_role := Some "Standby"; cost := Some (Float.of_Z 50);
                    explanation := Some "blocked / high readiness risk" |}.
Proof.
  apply (X17_no_dummy_when_enough_slots lsa_exhaustive
           (fleet [service_S1; standby_S2]) None
           [ {| train_id := "T1"; assigned_slot := Some "S1";
                slot_role := Some "Service";
                cost := Some (Float.of_dyadic 1 (-2));
                explanation := Some "good fit" |};
             {| train_id := "T2"; assigned_slot := Some "S2";
                slot_role := Some "Standby"; cost := Some (Float.of_Z 50);
                explanation := Some "blocked / high readiness risk" |} ]).
  - apply lsa_exhaustive_contract.
  - vm_compute. reflexivity.
  - right; left.
  - vm_compute. lia.
Defined.

Lemma Forall2_filter_length {A B} (R : A → B → Prop) (P : A → Prop) (Q : B → Prop)
    `{∀ x, Decision (P x)} `{∀ y, Decision (Q y)} l k :
  Forall2 R l k → (∀ x y, R x y → (P x ↔ Q y)) →
  length (filter P l) = length (filter Q k).
Proof.
  intros HF HPQ. induction HF as [|x y l k Hxy HF IH]; [done|].
  destruct (decide (P x)) as [Hp|Hp].
  - rewrite !filter_cons_True; [|apply (HPQ x y Hxy), Hp | exact Hp].
    simpl. f_equal. exact IH.
  - rewrite !filter_cons_False; [exact IH | | exact Hp].
    intros Hq. apply Hp, (HPQ x y Hxy), Hq.
Qed.

Lemma filter_all {A} (P : A → Prop) `{∀ x, Decision (P x)} (l : list A) :
  (∀ y, y ∈ l → P y) → filter P l = l.
Proof.
  induction l as [|y l IH]; intros Hl; [done|].
  rewrite filter_cons_True by (apply Hl; left).
  f_equal. apply IH. intros z Hz. apply Hl. right. exact Hz.
Qed.

Lemma length_filter_zip_snd {A B} (Q : B → Prop) `{∀ y, Decision (Q y)}
    (l : list A) (k : list B) :
  length l = length k →
  length (filter (fun xy => Q xy.2) (zip l k)) = length (filter Q k).
Proof.
  revert k. induction l as [|x l IH]; intros [|y k] Hlen; try done.
  simpl in Hlen. change (zip (x :: l) (y :: k)) with ((x, y) :: zip l k).
  destruct (decide (Q y)) as [Hq|Hq].
  - rewrite !filter_cons_True by done. simpl. f_equal. apply IH. lia.
  - rewrite !filter_cons_False by done. apply IH. lia.
Qed.

Lemma length_filter_ge_seq (S T : nat) :
  (S ≤ T)%nat → length (filter (fun j => (S ≤ j)%nat) (seq 0 T)) = (T - S)%nat.
Proof.
  intros Hle. replace T with (S + (T - S))%nat at 1 by lia.
  rewrite seq_app, filter_app, length_app.
  rewrite filter_none, filter_all.
  - simpl. apply length_seq.
  - intros y Hy%elem_of_seq. lia.
  - intros y Hy%elem_of_seq. lia.
Qed.

(** X18.  When the job card lists every train once and there are more
    trains than slots, exactly as many trains as there are slots missing
    are reported as assigned to a dummy column. *)
Theorem X18_dummy_count lsa d w df :
  matching_contract lsa d w →
  NoDup (map job_train_id (job_card d)) →
  solve_and_extract lsa d w = Ok df →
  (length (induction_slots d) < length (job_card d))%nat →
  length (filter is_dummy_row df)
  = (length (job_card d) - length (induction_slots d))%nat.
Proof.
  intros Hlsa Hnd H Hlt.
  destruct (solve_and_extract_rows lsa d w df Hlsa H)
    as (asg & Hdec & Hre & Hids & Hperm & _).
  rewrite (unique_NoDup _ Hnd) in *.
  assert (Hasg : asg ≠ []) by (intros ->; discriminate Hre).
  rewrite <- Hids in Hre.
  rewrite reindex_by_train_same in Hre; [|exact Hasg|rewrite Hids; exact Hnd].
  injection Hre as <-.
  assert (Hn : length (padded (build_cost_matrix d w) INF) = length (job_card d)).
  { rewrite padded_length, (unique_NoDup _ Hnd), !length_map. lia. }
  rewrite Hn in *. rewrite length_map in Hdec.
  rewrite filter_all in Hdec.
  2:{ intros [r c] Hrc. apply elem_of_zip_seq in Hrc. simpl. tauto. }
  rewrite (Forall2_filter_length _ is_dummy_row
             (fun rc => (length (induction_slots d) ≤ rc.2)%nat) _ _ Hdec).
  - rewrite length_filter_zip_snd.
    + rewrite Hperm. apply length_filter_ge_seq. lia.
    + rewrite length_seq, (Permutation_length Hperm), length_seq. done.
  - intros a [r c] Hd. simpl in *.
    rewrite (decoded_dummy_iff _ _ _ _ _ _ _ Hd), length_map. done.
Qed.

Lemma X18_dummy_count_witness :
  length (filter is_dummy_row
            [ {| train_id := "T1"; assigned_slot := Some "S1";
                 slot_role := Some "Service";
                 cost := Some (Float.of_dyadic 1 (-2));
                 explanation := Some "good fit" |};
              unassigned "T3" "Assigned to dummy (no available real slot)";
              unassigned "T4" "Assigned to dummy (no available real slot)" ])
  = (3 - 1)%nat.
Proof.
  apply (X18_dummy_count lsa_exhaustive (three_trains [service_S1]) None).
  - apply lsa_exhaustive_contract.
  - vm_compute. apply NoDup_ListNoDup. repeat constructor; simpl; intuition discriminate.
  - vm_compute. reflexivity.
  - vm_compute. lia.
Defined.

End RowFacts.

(** ** The matching behind the returned table *)

Section MatchingClaim.
Import constraints cost_model cost_model_matrix solver solver_rows Samples.

Lemma filter_zip_seq_lt (cols : list nat) (n T : nat) :
  length cols = n → (T ≤ n)%nat →
  filter (fun rc : nat * nat => (rc.1 < T)%nat) (zip (seq 0 n) cols)
  = zip (seq 0 T) (take T cols).
Proof.
  intros Hlen HT.
  replace n with (T + (n - T))%nat at 1 by lia.
  rewrite seq_app. rewrite <- (take_drop T cols) at 1.
  rewrite zip_with_app by (rewrite length_seq, length_take; lia).
  rewrite filter_app, filter_all, filter_none; [apply app_nil_r | |].
  - intros [r c] Hrc. simpl.
    apply elem_of_zip_l in Hrc. simpl in Hrc. apply elem_of_seq in Hrc. lia.
  - intros [r c] Hrc. simpl.
    apply elem_of_zip_l in Hrc. simpl in Hrc. apply elem_of_seq in Hrc. lia.
Qed.

(** C1.  With at least one train and one slot, and the matching routine
    taken as the exhaustive exact search [lsa_exhaustive]: a table is
    returned when the slot ids are unique; and behind every returned table
    there is the padded square matrix of the job card's trains and the slot
    table's slots (their pair costs in the real block, [INF] in every
    padding cell) and a permutation [cols] of its columns such that no
    permutation has a lower exact total cost, no one-to-one choice of
    columns for the trains alone has a lower exact total over the trains,
    and the table is the decoding of [cols]: it has the job card's train
    ids, the row of the [i]-th train is the row the decoding loop makes for
    the pair [(i, cols[i])], and every row is such a row. *)
Theorem C1_matching_globally_minimal d w :
  job_card d ≠ [] → induction_slots d ≠ [] →
  let trains := unique (map job_train_id (job_card d)) in
  let slots := map slot_id (induction_slots d) in
  let n := length trains `max` length slots in
  (NoDup slots → ∃ df, solve_and_extract lsa_exhaustive d w = Ok df)
  ∧ ∀ df, solve_and_extract lsa_exhaustive d w = Ok df →
      ∃ sq cols,
        solve_matching lsa_exhaustive d w = Ok (sq, trains, slots, (seq 0 n, cols))
        ∧ trains ≠ []
        ∧ is_square n sq
        ∧ (∀ i j t s, trains !! i = Some t → induction_slots d !! j = Some s →
             get2 sq i j = Some (compute_pair_cost t s d w))
        ∧ (∀ i j, (i < n)%nat → (j < n)%nat →
             ¬ ((i < length trains)%nat ∧ (j < length slots)%nat) →
             get2 sq i j = Some INF)
        ∧ cols ≡ₚ seq 0 n
        ∧ (∀ other, other ≡ₚ seq 0 n →
             (total_cost sq cols <= total_cost sq other)%Q)
        ∧ (∀ f, length f = length trains → NoDup f →
             Forall (fun j => (j < n)%nat) f →
             (total_cost sq (take (length trains) cols) <= total_cost sq f)%Q)
        ∧ map train_id df = map job_train_id (job_card d)
        ∧ (∀ i t, trains !! i = Some t →
             ∃ c a, cols !! i = Some c ∧ a ∈ df ∧ train_id a = t
                    ∧ decoded d sq trains slots i c a)
        ∧ (∀ a, a ∈ df →
             ∃ i c, cols !! i = Some c ∧ decoded d sq trains slots i c a).
Proof.
  intros Hjob Hslot trains slots n. split.
  { intros Hnd. apply solve_and_extract_total;
      [apply lsa_exhaustive_rows | | exact Hjob | exact Hnd].
    rewrite (Permutation_length (lsa_exhaustive_perm _)). apply length_seq. }
  intros df H.
  destruct (solve_and_extract_rows lsa_exhaustive d w df (lsa_exhaustive_contract d w) H)
    as (asg & Hdec & Hre & Hids & Hperm & Hnd).
  set (sq := padded (build_cost_matrix d w) INF) in *.
  set (cols := (lsa_exhaustive sq).2) in *.
  fold trains slots in Hdec, Hids.
  assert (Hlen : length sq = n) by apply padded_length.
  assert (E : solve_matching lsa_exhaustive d w
              = Ok (sq, trains, slots, (seq 0 n, cols))).
  { rewrite (solve_matching_total lsa_exhaustive d w Hnd), <- Hlen. reflexivity. }
  assert (Htr : trains ≠ []).
  { intros E0%unique_nil_inv. apply Hjob.
    destruct (job_card d); [done | discriminate]. }
  destruct (solve_matching_minimal d w Hjob Hslot) as [_ Hmin].
  destruct (Hmin sq trains slots (seq 0 n) cols E)
    as (Hsq & Hreal & Hpad & _ & Hp & Hbest & Hbest').
  exists sq, cols.
  split; [exact E|]. split; [exact Htr|]. split; [exact Hsq|].
  split; [exact Hreal|]. split; [exact Hpad|]. split; [exact Hp|].
  split; [exact Hbest|]. split; [exact Hbest'|].
  assert (Hcover : ∀ t, t ∈ map job_train_id (job_card d) → t ∈ map train_id asg).
  { intros t Ht. rewrite Hids. apply elem_of_unique, Ht. }
  split; [|split].
  - apply (reindex_by_train_inv _ _ _ Hre Hcover).
  - intros i t Hi.
    assert (HiT : (i < length trains)%nat) by (eapply lookup_lt_Some, Hi).
    assert (Hcl : length cols = length sq).
    { rewrite (Permutation_length Hperm). apply length_seq. }
    rewrite (filter_zip_seq_lt cols (length sq) (length trains) Hcl) in Hdec
      by (rewrite Hlen; subst n; lia).
    destruct (lookup_lt_is_Some_2 cols i) as [c Hc];
      [rewrite Hcl, Hlen; subst n; lia|].
    assert (Hz : zip (seq 0 (length trains)) (take (length trains) cols) !! i
                 = Some (i, c)).
    { apply lookup_zip_with_Some. exists i, c. split; [reflexivity|]. split.
      - apply lookup_seq. split; [reflexivity | exact HiT].
      - rewrite lookup_take_lt by exact HiT. exact Hc. }
    destruct (Forall2_lookup_r _ _ _ _ _ Hdec Hz) as (a & Ha & Hd).
    assert (Hid : train_id a = t).
    { assert (Hl : map train_id asg !! i = Some (train_id a))
        by (rewrite list_lookup_fmap, Ha; reflexivity).
      rewrite Hids, Hi in Hl. injection Hl as <-. reflexivity. }
    exists c, a. split; [exact Hc|]. split; [|split; [exact Hid | exact Hd]].
    apply (reindex_by_train_elem asg _ df a Hre).
    + eapply list_elem_of_lookup_2, Ha.
    + rewrite Hid. apply elem_of_unique. eapply list_elem_of_lookup_2, Hi.
  - intros a Ha.
    destruct (solve_and_extract_row lsa_exhaustive d w df a
                (lsa_exhaustive_contract d w) H Ha) as (_ & _ & r & c & Hc & _ & Hd).
    exists r, c. split; [exact Hc | exact Hd].
Qed.

Lemma C1_fleet_witness :
  ∃ sq,
    solve_matching lsa_exhaustive (fleet [service_S1; standby_S2]) None
      = Ok (sq, ["T1"; "T2"], ["S1"; "S2"], ([0; 1]%nat, [0; 1]%nat))
    ∧ get2 sq 1 0 = Some INF
    ∧ Qle (total_cost sq [0; 1]%nat) (total_cost sq [1; 0]%nat)
    ∧ solve_and_extract lsa_exhaustive (fleet [service_S1; standby_S2]) None
      = Ok [ {| train_id := "T1"; assigned_slot := Some "S1";
                slot_role := Some "Service";
                cost := Some (Float.of_dyadic 1 (-2));
                explanation := Some "good fit" |};
             {| train_id := "T2"; assigned_slot := Some "S2";
                slot_role := Some "Standby";
                cost := Some (Float.of_Z 50);
                explanation := Some "blocked / high readiness risk" |} ].
Proof.
  destruct (C1_matching_globally_minimal (fleet [service_S1; standby_S2]) None)
    as [_ H]; [discriminate | discriminate |].
  destruct (H [ {| train_id := "T1"; assigned_slot := Some "S1";
                   slot_role := Some "Service";
                   cost := Some (Float.of_dyadic 1 (-2));
                   explanation := Some "good fit" |};
                {| train_id := "T2"; assigned_slot := Some "S2";
                   slot_role := Some "Standby";
                   cost := Some (Float.of_Z 50);
                   explanation := Some "blocked / high readiness risk" |} ])
    as (sq & cols & E & _ & _ & Hreal & _ & _ & Hmin & _).
  - vm_compute. reflexivity.
  - assert (Hcols : cols = [0; 1]%nat).
    { vm_compute in E. injection E as _ E. exact (eq_sym E). }
    subst cols. exists sq.
    split; [exact E|]. split; [|split; [|vm_compute; reflexivity]].
    + apply (Hreal 1%nat 0%nat "T2" service_S1); reflexivity.
    + apply Hmin. apply perm_swap.
Defined.

End MatchingClaim.

(** ** The infeasibility summary of [explain_all] *)

Section SummaryFacts.
Import constraints explain explain_summary Samples MoreSamples.

Lemma dict_get_incr k r counts :
  dict_get k (dict_incr r counts)
  = if bool_decide (k = r) then S (dict_get r counts) else dict_get k counts.
Proof.
  induction counts as [|[k0 c0] counts IH]; simpl.
  - destruct (decide (r = k)) as [->|Hne].
    + rewrite !bool_decide_eq_true_2 by done. done.
    + rewrite !bool_decide_eq_false_2 by congruence. done.
  - destruct (decide (k0 = r)) as [->|Hne].
    + rewrite (bool_decide_eq_true_2 (r = r)) by done. simpl.
      destruct (decide (r = k)) as [->|Hk].
      * rewrite !bool_decide_eq_true_2 by done. done.
      * rewrite !bool_decide_eq_false_2 by congruence. done.
    + rewrite (bool_decide_eq_false_2 (k0 = r)) by done. simpl.
      destruct (decide (k0 = k)) as [->|Hk].
      * rewrite bool_decide_eq_true_2 by done.
        rewrite bool_decide_eq_false_2 by congruence. done.
      * rewrite (bool_decide_eq_false_2 (k0 = k)) by done. exact IH.
Qed.

Lemma dict_incr_keys k r counts :
  k ∈ map fst (dict_incr r counts) ↔ k = r ∨ k ∈ map fst counts.
Proof.
  induction counts as [|[k0 c0] counts IH]; simpl.
  - rewrite list_elem_of_singleton, elem_of_nil. tauto.
  - case_bool_decide as E; simpl; rewrite !elem_of_cons.
    + subst. tauto.
    + rewrite IH. tauto.
Qed.

Lemma good_counts_incr r counts : good_counts counts → good_counts (dict_incr r counts).
Proof.
  intros [Hnd Hpos]. induction counts as [|[k0 c0] counts IH]; simpl.
  - split; [apply NoDup_singleton | repeat constructor].
  - simpl in Hnd. apply NoDup_cons in Hnd as [Hk0 Hnd].
    apply Forall_cons in Hpos as [Hc0 Hpos].
    case_bool_decide as E; simpl.
    + split; [constructor; assumption | constructor; [simpl; lia | assumption]].
    + destruct (IH Hnd Hpos) as [IH1 IH2].
      split; [|constructor; assumption].
      simpl. constructor; [|exact IH1].
      rewrite dict_incr_keys. intros [-> | ?]; done.
Qed.

Lemma dict_get_absent k counts : k ∉ map fst counts → dict_get k counts = 0.
Proof.
  induction counts as [|[k0 c0] counts IH]; simpl; [done|].
  rewrite not_elem_of_cons. intros [Hne Hk].
  rewrite bool_decide_eq_false_2 by congruence. apply IH, Hk.
Qed.

Lemma dict_get_elem k c counts :
  NoDup (map fst counts) → (k, c) ∈ counts → dict_get k counts = c.
Proof.
  induction counts as [|[k0 c0] counts IH]; simpl; intros Hnd Hin; [inversion Hin|].
  apply NoDup_cons in Hnd as [Hk0 Hnd].
  apply elem_of_cons in Hin as [[= <- <-] | Hin].
  - rewrite bool_decide_eq_true_2 by done. done.
  - rewrite bool_decide_eq_false_2; [apply IH; assumption|].
    intros ->. apply Hk0. apply list_elem_of_fmap. exists (k, c). done.
Qed.

Lemma dict_get_pos_elem k counts :
  (1 ≤ dict_get k counts)%nat → (k, dict_get k counts) ∈ counts.
Proof.
  induction counts as [|[k0 c0] counts IH]; simpl; [lia|].
  case_bool_decide as E; [subst; left | right; apply IH; assumption].
Qed.

(** Counting a run of reasons. *)
Lemma dict_get_foldl_incr k l : ∀ counts,
  dict_get k (foldl (fun counts r => dict_incr r counts) counts l)
  = (dict_get k counts + count_label k l)%nat.
Proof.
  induction l as [|r l IH]; intros counts; simpl; [unfold count_label; simpl; lia|].
  rewrite IH, dict_get_incr. unfold count_label.
  destruct (decide (r = k)) as [->|Hne].
  - rewrite bool_decide_eq_true_2 by done.
    rewrite filter_cons_True by done. simpl. lia.
  - rewrite bool_decide_eq_false_2 by congruence.
    rewrite filter_cons_False by done. lia.
Qed.

Lemma good_counts_foldl_incr l : ∀ counts,
  good_counts counts → good_counts (foldl (fun counts r => dict_incr r counts) counts l).
Proof.
  induction l as [|r l IH]; intros counts H; simpl; [exact H|].
  apply IH, good_counts_incr, H.
Qed.

Lemma reason_counts_get t d k :
  dict_get k (reason_counts t d) = length (slots_with_reason t d k)
  ∧ good_counts (reason_counts t d).
Proof.
  unfold reason_counts, slots_with_reason.
  assert (H : ∀ counts, good_counts counts →
    dict_get k
      (foldl (fun counts srow =>
                if negb (is_pair_feasible t (job_card d) (certificate_validity d)
                           (cleaning_roster d) srow)
                then foldl (fun counts r => dict_incr r counts) counts
                       (get_infeasibility_reasons t (Some srow) d)
                else counts) counts (induction_slots d))
    = (dict_get k counts
       + length (filter (fun srow =>
                   is_pair_feasible t (job_card d) (certificate_validity d)
                     (cleaning_roster d) srow = false
                   ∧ k ∈ get_infeasibility_reasons t (Some srow) d)
                   (induction_slots d)))%nat
    ∧ good_counts
        (foldl (fun counts srow =>
                  if negb (is_pair_feasible t (job_card d) (certificate_validity d)
                             (cleaning_roster d) srow)
                  then foldl (fun counts r => dict_incr r counts) counts
                         (get_infeasibility_reasons t (Some srow) d)
                  else counts) counts (induction_slots d))).
  { induction (induction_slots d) as [|s slots IH]; intros counts Hgood.
    - simpl. split; [lia | exact Hgood].
    - cbn [foldl].
      destruct (is_pair_feasible t (job_card d) (certificate_validity d)
                  (cleaning_roster d) s) eqn:Hf; simpl.
      + rewrite filter_cons_False by (intros [? _]; congruence).
        apply IH, Hgood.
      + destruct (IH (foldl (fun counts r => dict_incr r counts) counts
                        (get_infeasibility_reasons t (Some s) d))) as [IH1 IH2].
        { apply good_counts_foldl_incr, Hgood. }
        split; [|exact IH2].
        rewrite IH1, dict_get_foldl_incr.
        destruct (decide (k ∈ get_infeasibility_reasons t (Some s) d)) as [Hk|Hk].
        * rewrite filter_cons_True by done.
          rewrite count_label_NoDup; [simpl; lia | apply NoDup_unique | exact Hk].
        * rewrite filter_cons_False by tauto.
          rewrite count_label_absent by exact Hk. lia. }
  apply (H []). split; [constructor | constructor].
Qed.

Lemma insert_by_count_perm x l : insert_by_count x l ≡ₚ x :: l.
Proof.
  induction l as [|y l IH]; simpl; [done|].
  destruct (y.2 <=? x.2)%nat; [done|].
  rewrite IH. apply perm_swap.
Qed.

Lemma sorted_by_count_perm l : sorted_by_count l ≡ₚ l.
Proof.
  induction l as [|x l IH]; simpl; [done|].
  rewrite insert_by_count_perm, IH. done.
Qed.

Lemma insert_by_count_sorted x l :
  Sorted (fun a b : string * nat => (b.2 ≤ a.2)%nat) l →
  Sorted (fun a b : string * nat => (b.2 ≤ a.2)%nat) (insert_by_count x l).
Proof.
  induction 1 as [|y l Hs IH Hhd]; simpl.
  - repeat constructor.
  - destruct (y.2 <=? x.2)%nat eqn:E.
    + apply Nat.leb_le in E. repeat constructor; assumption.
    + apply Nat.leb_gt in E. constructor; [exact IH|].
      destruct l as [|z l]; simpl.
      * constructor. lia.
      * inversion Hhd; subst. destruct (z.2 <=? x.2)%nat; constructor; [lia | assumption].
Qed.

Lemma sorted_by_count_sorted l :
  Sorted (fun a b : string * nat => (b.2 ≤ a.2)%nat) (sorted_by_count l).
Proof.
  induction l as [|x l IH]; simpl; [constructor|].
  apply insert_by_count_sorted, IH.
Qed.

(** X19.  The summary of [explain_all] for a train: the listed reasons are
    distinct; a reason is listed with count [c] exactly when [c] is the
    number of infeasible slot rows whose reasons contain it and that number
    is not zero; and the list runs by decreasing count. *)
Theorem X19_sorted_reasons_spec t d :
  NoDup (map fst (sorted_reasons t d))
  ∧ (∀ r c, (r, c) ∈ sorted_reasons t d
            ↔ c = length (slots_with_reason t d r) ∧ (1 ≤ c)%nat)
  ∧ Sorted (fun a b : string * nat => (b.2 ≤ a.2)%nat) (sorted_reasons t d).
Proof.
  unfold sorted_reasons.
  pose proof (sorted_by_count_perm (reason_counts t d)) as Hperm.
  split; [|split; [|apply sorted_by_count_sorted]].
  - rewrite Hperm. apply (reason_counts_get t d "").
  - intros r c. rewrite Hperm.
    destruct (reason_counts_get t d r) as [Hget [Hnd Hpos]].
    split.
    + intros Hin. rewrite <- Hget, (dict_get_elem r c _ Hnd Hin).
      split; [done|]. rewrite Forall_forall in Hpos. apply (Hpos _ Hin).
    + intros [-> Hc]. rewrite <- Hget in *. apply dict_get_pos_elem, Hc.
Qed.

(** The summary on a sample: the blocked train with cleaning pending faces two
    slots written "Service", one written "service" and a Standby slot. *)
Example troubled_yard_summary :
  infeas_reasons "T2" troubled_yard
  = ["blocked train cannot go to Service (2 slots)";
     "cleaning pending for Service (2 slots)"]
  ∧ infeas_reasons "T5" troubled_yard = ["certificate invalid (3 slots)"].
Proof. split; vm_compute; reflexivity. Qed.

End SummaryFacts.

(** ** The schema check *)

Section SchemaFacts.
Import ingestion.

Lemma foldlM_unit_Ok {B} (f : unit → B → result unit) l :
  foldlM f tt l = Ok tt ↔ ∀ b, b ∈ l → f tt b = Ok tt.
Proof.
  induction l as [|b l IH]; simpl.
  - split; [intros _ b Hb; inversion Hb | done].
  - destruct (f tt b) as [[]|e] eqn:E; simpl.
    + rewrite IH. split.
      * intros H b' Hb'. apply elem_of_cons in Hb' as [-> | Hb']; [exact E | apply H, Hb'].
      * intros H b' Hb'. apply H. right. exact Hb'.
    + split; [discriminate|]. intros H. specialize (H b (list_elem_of_here _ _)).
      congruence.
Qed.

Lemma missing_columns_nil required columns :
  missing_columns required columns = [] ↔ required ⊆ columns.
Proof.
  unfold missing_columns. split.
  - intros H col Hcol. destruct (decide (col ∈ columns)) as [|Hn]; [done|].
    exfalso. eapply (filter_nil_not_elem_of _ _ col); [exact H | exact Hn | exact Hcol].
  - intros H. apply filter_none. intros col Hcol Hn. apply Hn, H, Hcol.
Qed.

(** X20.  The schema check passes exactly when each of the five tables is
    in the bundle and has every column required of it; of the three
    certificate columns only [brake_test_valid] is required. *)
Theorem X20_validate_basic_schema_passes tables :
  validate_basic_schema tables = Ok tt
  ↔ ∀ name required, (name, required) ∈ required_columns →
      ∃ columns, tables !! name = Some columns ∧ required ⊆ columns.
Proof.
  unfold validate_basic_schema. rewrite foldlM_unit_Ok. split.
  - intros H name required Hin. specialize (H _ Hin). simpl in H.
    destruct (tables !! name) as [columns|]; [|discriminate].
    exists columns. split; [done|]. apply missing_columns_nil.
    destruct (missing_columns required columns); [done | discriminate].
  - intros H [name required] Hin. destruct (H _ _ Hin) as (columns & -> & Hsub).
    apply missing_columns_nil in Hsub. rewrite Hsub. done.
Qed.

(** A certificate table with only [train_id] and [brake_test_valid] passes;
    one without [brake_test_valid] is reported with the missing column. *)
Example schema_check_samples :
  validate_basic_schema
    (list_to_map [("job_card", ["train_id"; "blocked"]);
                  ("certificate_validity", ["train_id"; "brake_test_valid"]);
                  ("cleaning_roster", ["train_id"; "cleaning_done"]);
                  ("mileage", ["train_id"; "mileage_km"]);
                  ("induction_slots", ["slot_id"; "role"; "shunt_distance"])])
  = Ok tt
  ∧ validate_basic_schema
      (list_to_map [("job_card", ["train_id"; "blocked"]);
                    ("certificate_validity", ["train_id"; "pto_valid"]);
                    ("cleaning_roster", ["train_id"])])
    = Err (ValueError
             "certificate_validity is missing required columns: ['brake_test_valid']").
Proof. split; vm_compute; reflexivity. Qed.

End SchemaFacts.

(** ** The sign of a pair cost *)

Section CostSign.
Import constraints cost_model Samples MoreSamples.

Lemma round_aux_not_negative mx ex lx :
  not_negative (binary_round_aux Float.prec Float.emax false mx ex lx).
Proof.
  unfold not_negative, binary_round_aux.
  destruct (shr_fexp _ _ mx ex lx) as [mrs' e'].
  destruct (shr_fexp _ _ _ e' loc_Exact) as [mrs'' e''].
  destruct (shr_m mrs''); [done | | done].
  destruct (Z.leb _ _); done.
Qed.

Lemma mul_not_negative x y :
  not_negative x → not_negative y → not_negative (Float.mul x y).
Proof.
  destruct x as [sx|sx| |[] mx ex]; destruct y as [sy|sy| |[] my ey];
    simpl; try done.
  intros _ _. apply round_aux_not_negative.
Qed.

Lemma add_not_negative x y :
  not_negative x → not_negative y → not_negative (Float.add x y).
Proof.
  destruct x as [[]|[]| |[] mx ex]; destruct y as [[]|[]| |[] my ey];
    simpl; try done.
  intros _ _. unfold binary_normalize, binary_round.
  destruct (shl_align mx ex (Z.min ex ey)) as [ax ?].
  destruct (shl_align my ey (Z.min ex ey)) as [ay ?]. simpl.
  destruct (shl_align _ _ _) as [mz ez].
  apply round_aux_not_negative.
Qed.

Lemma leb_0_not_negative x : Float.leb (Float.of_Z 0) x = true → not_negative x.
Proof. destruct x as [| | |[] ? ?]; simpl; done. Qed.

Lemma finite_not_negative_leb x :
  Float.isfinite x = true → not_negative x → Float.leb (Float.of_Z 0) x = true.
Proof. destruct x as [| | |[] ? ?]; simpl; done. Qed.

(** X21.  With finite non-negative weights and a shunt proxy that is not
    negative (and not NaN), the pair cost is never negative. *)
Theorem X21_pair_cost_nonneg t s d w :
  weights_finite_nonneg w = true →
  Float.leb (Float.of_Z 0) (shunt_proxy s) = true →
  Float.leb (Float.of_Z 0) (compute_pair_cost t s d (Some w)) = true.
Proof.
  intros Hw Hs. rewrite compute_pair_cost_unfold. simpl.
  destruct (is_pair_feasible _ _ _ _ _); [|reflexivity].
  destruct (Float.isfinite (weighted_sum t s d w)) eqn:Hfin; [|reflexivity].
  apply finite_not_negative_leb; [exact Hfin|].
  unfold weights_finite_nonneg, finite_nonneg in Hw.
  rewrite !andb_true_iff in Hw. destruct Hw as [[[_ H1] [_ H2]] [_ H3]].
  unfold weighted_sum.
  apply add_not_negative; [apply add_not_negative|]; apply mul_not_negative;
    try (apply leb_0_not_negative; assumption).
  - pose proof (readiness_risk_values t (job_card d) (certificate_validity d)
                  (cleaning_roster d)) as Hr.
    rewrite !elem_of_cons in Hr.
    destruct Hr as [-> | [-> | [-> | [-> | Hr]]]]; [done..|inversion Hr].
  - apply leb_0_not_negative, mileage_penalty_leb_0.
Qed.

Lemma X21_pair_cost_nonneg_witness :
  Float.leb (Float.of_Z 0)
    (compute_pair_cost "T2" standby_S2 (fleet [standby_S2]) (Some DEFAULT_WEIGHTS)) = true.
Proof. apply X21_pair_cost_nonneg; reflexivity. Defined.

End CostSign.

(** ** Trains listed more than once *)

Section DuplicateTrains.
Import cost_model cost_model_matrix solver solver_rows Samples MoreSamples.

Lemma NoDup_fmap_inj_on {A} (f : A → string) (l : list A) a b :
  NoDup (map f l) → a ∈ l → b ∈ l → f a = f b → a = b.
Proof.
  intros Hnd Ha Hb Hab.
  pose proof (filter_unique_key f l a Hnd Ha) as Hfa.
  assert (Hin : b ∈ filter (fun x => f x = f a) l).
  { apply list_elem_of_filter. split; [congruence | exact Hb]. }
  rewrite Hfa in Hin. apply list_elem_of_singleton in Hin. congruence.
Qed.

(** X22.  Whether or not the job card repeats train ids, the returned table
    has one row for each row of the job card, and two of its rows with the
    same train id are the same row: a train listed twice shows the same
    outcome twice. *)
Theorem X22_repeated_train_same_row lsa d w df :
  matching_contract lsa d w →
  solve_and_extract lsa d w = Ok df →
  length df = length (job_card d)
  ∧ ∀ a b, a ∈ df → b ∈ df → train_id a = train_id b → a = b.
Proof.
  intros Hlsa H.
  destruct (solve_and_extract_rows lsa d w df Hlsa H)
    as (asg & _ & Hre & Hids & _ & _).
  apply reindex_by_train_inv in Hre as [Hmap Hsub].
  - split.
    + rewrite <- (length_map train_id df), Hmap, length_map. done.
    + intros a b Ha Hb Hab. rewrite Forall_forall in Hsub.
      apply (NoDup_fmap_inj_on train_id asg a b); auto.
      rewrite Hids. apply NoDup_unique.
  - intros t Ht. rewrite Hids. apply elem_of_unique, Ht.
Qed.

Lemma X22_repeated_train_witness :
  length [unassigned "T2" "No feasible slot"; unassigned "T2" "No feasible slot"]
  = length [mkjob "T2" 1; mkjob "T2" 0].
Proof.
  apply (X22_repeated_train_same_row lsa_exhaustive
           {| job_card := [mkjob "T2" 1; mkjob "T2" 0];
              certificate_validity := [mkcert "T2" 1 1 1];
              cleaning_roster := [mkclean "T2" 1];
              mileage := [mkmileage "T2" 150000];
              induction_slots := [service_S1] |} None).
  - apply lsa_exhaustive_contract.
  - vm_compute. reflexivity.
Defined.

End DuplicateTrains.

(** ** The cost-matrix route *)

Section RouteFacts.
Import constraints cost_model cost_model_matrix solver app Samples MoreSamples.

Lemma INF_tenth_value : INF_tenth = S754_finite false 6871947673600000 (-36).
Proof. vm_compute. reflexivity. Qed.

Lemma SFcompare_positive_antisym m e m' e' :
  SFcompare (S754_finite false m e) (S754_finite false m' e')
  = option_map CompOpp (SFcompare (S754_finite false m' e') (S754_finite false m e)).
Proof.
  unfold SFcompare. rewrite (Z.compare_antisym e e').
  destruct (e ?= e')%Z; simpl; try reflexivity.
  rewrite (Pos.compare_cont_antisym m' m Eq). reflexivity.
Qed.

(** On a finite cost, the route's test [<] and the decoder's test [>=]
    against [INF / 10] are each other's negation. *)
Lemma shown_cost_geb v :
  Float.isfinite v = true →
  shown_cost v = if Float.geb v INF_tenth then None else Some v.
Proof.
  unfold shown_cost, Float.ltb, Float.geb, SFltb, SFleb.
  rewrite INF_tenth_value.
  destruct v as [s|s| |s m e]; try discriminate; intros _.
  - reflexivity.
  - destruct s; [reflexivity|].
    rewrite (SFcompare_positive_antisym m e).
    destruct (SFcompare (S754_finite false 6871947673600000 (-36))
                (S754_finite false m e)) as [[]|] eqn:E; try reflexivity.
    unfold SFcompare in E. discriminate E.
Qed.

Lemma foldl_insert_lookup {V} (g : string → V) (ks : list string) k :
  ∀ m : gmap string V,
    foldl (fun m k => <[k := g k]> m) m ks !! k
    = if bool_decide (k ∈ ks) then Some (g k) else m !! k.
Proof.
  induction ks as [|k0 ks IH]; intros m.
  - reflexivity.
  - cbn [foldl]. rewrite IH.
    destruct (decide (k ∈ ks)) as [H|H].
    + rewrite !bool_decide_eq_true_2; [done | right; done | done].
    + rewrite (bool_decide_eq_false_2 _ H).
      destruct (decide (k0 = k)) as [->|Hne].
      * rewrite lookup_insert_eq, bool_decide_eq_true_2; [done | left].
      * rewrite lookup_insert_ne by done.
        rewrite bool_decide_eq_false_2; [done|].
        rewrite elem_of_cons. intros [-> | ?]; done.
Qed.

Lemma loc_train_select loaded selected t :
  t ∈ selected →
  loc_train job_train_id (job_card (select_trains loaded selected)) t
  = loc_train job_train_id (job_card loaded) t.
Proof.
  intros Ht. unfold loc_train, select_trains. simpl.
  induction (job_card loaded) as [|j l IH]; [done|].
  destruct (decide (job_train_id j ∈ selected)) as [Hs|Hs].
  - rewrite (filter_cons_True (fun j => job_train_id j ∈ selected)) by done.
    destruct (decide (job_train_id j = t)) as [E|E].
    + rewrite !filter_cons_True by done. f_equal. exact IH.
    + rewrite !filter_cons_False by done. exact IH.
  - rewrite (filter_cons_False (fun j => job_train_id j ∈ selected)) by done.
    rewrite filter_cons_False; [exact IH|]. intros E. apply Hs. rewrite E. exact Ht.
Qed.

(** Selecting trains does not change the cost of a selected train. *)
Lemma compute_pair_cost_select loaded selected t s w :
  t ∈ selected →
  compute_pair_cost t s (select_trains loaded selected) w
  = compute_pair_cost t s loaded w.
Proof.
  intros Ht. unfold compute_pair_cost, weighted_sum, is_pair_feasible, readiness_risk.
  rewrite (loc_train_select loaded selected t Ht). reflexivity.
Qed.

(** X23.  For a non-empty selection and unique slot ids the route answers
    200, and for every selected train of the job card and every slot it
    shows the pair cost when the decoder of [solve_and_extract] would accept
    that cost (below [INF / 10]) and null when the decoder would answer "No
    feasible slot"; the costs are those of the unfiltered tables. *)
Theorem X23_cost_matrix_route loaded selected w :
  selected ≠ [] →
  NoDup (map slot_id (induction_slots loaded)) →
  ∃ costs,
    get_cost_matrix loaded selected w
    = Resp200 (unique (map job_train_id (job_card (select_trains loaded selected))))
        (map slot_id (induction_slots loaded)) costs
    ∧ ∀ t s, t ∈ map job_train_id (job_card loaded) → t ∈ selected →
             s ∈ induction_slots loaded →
             costs !! t ≫= (fun row => row !! slot_id s)
             = Some (if Float.geb (compute_pair_cost t s loaded w) INF_tenth
                     then None else Some (compute_pair_cost t s loaded w)).
Proof.
  intros Hsel Hnd. unfold get_cost_matrix.
  destruct selected as [|t0 rest] eqn:Esel; [done|]. rewrite <- Esel in *.
  clear Esel t0 rest Hsel.
  set (d := select_trains loaded selected).
  set (m := build_cost_matrix d w).
  assert (Hidx : index m = unique (map job_train_id (job_card d)))
    by apply build_cost_matrix_index.
  assert (Hcol : columns m = map slot_id (induction_slots loaded))
    by apply (build_cost_matrix_columns d w).
  set (row_of := fun t : string =>
         foldl (fun (row : gmap string (option float)) sid =>
                  <[sid := shown_cost (cell_value m t sid)]> row) ∅ (columns m)).
  assert (Hinner : ∀ t, t ∈ index m →
            foldlM (fun row sid => cost_val ← at_get m t sid;
                                   Ok (<[sid := shown_cost cost_val]> row))
                   (∅ : gmap string (option float)) (columns m) = Ok (row_of t)).
  { intros t Ht. apply foldlM_ok. intros row sid Hsid.
    rewrite at_get_unique; [done| |].
    - apply count_label_NoDup; [rewrite Hidx; apply NoDup_unique | exact Ht].
    - apply count_label_NoDup; [rewrite Hcol; exact Hnd | exact Hsid]. }
  rewrite (foldlM_ok _ (fun costs t => <[t := row_of t]> costs)).
  2:{ intros costs t Ht. rewrite (Hinner t Ht). reflexivity. }
  rewrite Hidx, Hcol. eexists. split; [reflexivity|].
  intros t s Ht Hts Hs.
  assert (Htd : t ∈ unique (map job_train_id (job_card d))).
  { apply elem_of_unique. subst d. unfold select_trains. simpl.
    apply list_elem_of_fmap in Ht as [j [-> Hj]].
    apply list_elem_of_fmap. exists j. split; [done|].
    apply list_elem_of_filter. done. }
  rewrite <- Hidx.
  rewrite (foldl_insert_lookup row_of), bool_decide_eq_true_2 by (rewrite Hidx; exact Htd).
  simpl. unfold row_of.
  rewrite (foldl_insert_lookup (fun sid => shown_cost (cell_value m t sid))).
  rewrite bool_decide_eq_true_2.
  2:{ rewrite Hcol. apply list_elem_of_fmap. exists s. done. }
  apply list_elem_of_lookup in Hs as [j Hj].
  subst m. rewrite (build_cost_matrix_cell d w t j s Hnd Hj Htd).
  subst d. rewrite compute_pair_cost_select by exact Hts.
  rewrite shown_cost_geb by apply compute_pair_cost_isfinite. reflexivity.
Qed.

Lemma X23_cost_matrix_route_witness :
  ∃ costs,
    get_cost_matrix (fleet [service_S1; standby_S2]) ["T2"] None
    = Resp200 ["T2"] ["S1"; "S2"] costs
    ∧ costs !! "T2" ≫= (fun row => row !! "S1") = Some None
    ∧ costs !! "T2" ≫= (fun row => row !! "S2") = Some (Some (Float.of_Z 50)).
Proof.
  destruct (X23_cost_matrix_route (fleet [service_S1; standby_S2]) ["T2"] None)
    as (costs & H1 & H2).
  - discriminate.
  - vm_compute. apply NoDup_ListNoDup. repeat constructor; simpl; intuition discriminate.
  - exists costs. split; [exact H1|]. split.
    + apply (H2 "T2" service_S1); [right; left | left | left].
    + apply (H2 "T2" standby_S2); [right; left | left | right; left].
Defined.

End RouteFacts.
